(** * Context-aware interruption handler: a verification development

    Shallow embedding of
    [livekit-agents/livekit/agents/voice/interruption_handler.py].

    Modelling conventions.
    - A Python [str] is a [string]; each [ascii] stands for the code point of
      the same number, so the development covers the texts whose code points
      lie in U+0000..U+00FF.  The character classes ([\s], [\w]) and
      [str.lower] are the ones CPython uses on that range.
    - A [Set[str]] vocabulary is the [list string] of its elements in the
      order in which the set iterates; the statements below are about every
      list, hence about every order of iteration.
    - Python floats (scores, timestamps) are modelled by exact rationals [Q];
      rounding is not modelled.
    - [time.time()] reads a clock held in an explicit [World].
    - Calls to [logger] are omitted: they touch no state of the handler. *)

From Stdlib Require Import Bool List Ascii String NArith ZArith QArith Lia Lqa.
Import ListNotations.

Local Open Scope bool_scope.
Local Open Scope string_scope.

(* ================================================================== *)
(** * Python string primitives                                          *)
(* ================================================================== *)

Module PyStr.

Definition ord (c : ascii) : N := N_of_ascii c.

Definition in_range (lo hi : N) (c : ascii) : bool :=
  ((lo <=? ord c) && (ord c <=? hi))%N.

(** [str.isspace] on one character; also the class [\s] of [re] and the
    characters removed by [str.strip()] and split on by [str.split()]. *)
Definition isspace (c : ascii) : bool :=
  in_range 9 13 c || in_range 28 32 c || (ord c =? 133)%N || (ord c =? 160)%N.

(** [str.isalnum] on one character. *)
Definition isalnum (c : ascii) : bool :=
  in_range 48 57 c || in_range 65 90 c || in_range 97 122 c
  || (ord c =? 170)%N || in_range 178 179 c || (ord c =? 181)%N
  || in_range 185 186 c || in_range 188 190 c
  || in_range 192 214 c || in_range 216 246 c || in_range 248 255 c.

(** The class [\w] of [re] on a [str] pattern. *)
Definition is_word (c : ascii) : bool := isalnum c || (c =? "_")%char.

Definition is_hyphen (c : ascii) : bool := (c =? "-")%char.

Definition lower_char (c : ascii) : ascii :=
  if in_range 65 90 c || in_range 192 214 c || in_range 216 222 c
  then ascii_of_N (ord c + 32)
  else c.

(** [s.lower()] *)
Fixpoint lower (s : string) : string :=
  match s with
  | EmptyString => EmptyString
  | String c r => String (lower_char c) (lower r)
  end.

(** [s.lstrip()] *)
Fixpoint lstrip (s : string) : string :=
  match s with
  | EmptyString => EmptyString
  | String c r => if isspace c then lstrip r else s
  end.

(** [s.rstrip()] *)
Fixpoint rstrip (s : string) : string :=
  match s with
  | EmptyString => EmptyString
  | String c r =>
      match rstrip r with
      | EmptyString => if isspace c then EmptyString else String c EmptyString
      | r' => String c r'
      end
  end.

(** [s.strip()] *)
Definition strip (s : string) : string := rstrip (lstrip s).

(** Truth value of a [str]: [not s]. *)
Definition is_empty (s : string) : bool :=
  match s with EmptyString => true | _ => false end.

(** [s.startswith(p)] *)
Fixpoint startswith (s p : string) {struct p} : bool :=
  match p with
  | EmptyString => true
  | String a p' =>
      match s with
      | EmptyString => false
      | String b s' => (a =? b)%char && startswith s' p'
      end
  end.

(** [sub in s] *)
Fixpoint contains (sub s : string) : bool :=
  if startswith s sub then true
  else match s with
       | EmptyString => false
       | String _ r => contains sub r
       end.

(** [s.split()]: the maximal runs of non-whitespace characters. *)
Fixpoint split (s : string) : list string :=
  match s with
  | EmptyString => []
  | String c r =>
      if isspace c then split r
      else match r with
           | EmptyString => [String c EmptyString]
           | String d _ =>
               if isspace d then String c EmptyString :: split r
               else match split r with
                    | w :: ws => String c w :: ws
                    | [] => [String c EmptyString]
                    end
           end
  end.

(** [s.replace(old, new)] for a non-empty [old]: occurrences are replaced
    from the left and do not overlap.  [skip] counts the characters of a
    matched occurrence that are still to be dropped. *)
Fixpoint replace_from (old new : string) (skip : nat) (s : string) : string :=
  match s with
  | EmptyString => EmptyString
  | String c r =>
      match skip with
      | S k => replace_from old new k r
      | O =>
          if startswith s old
          then new ++ replace_from old new (String.length old - 1) r
          else String c (replace_from old new 0 r)
      end
  end.

(** [s.replace("", new)] puts [new] before every character and at the end. *)
Fixpoint intersperse (new s : string) : string :=
  match s with
  | EmptyString => new
  | String c r => new ++ String c (intersperse new r)
  end.

Definition replace (s old new : string) : string :=
  if is_empty old then intersperse new s else replace_from old new 0 s.

(** [x in xs] for a list or a set of strings. *)
Definition mem (x : string) (xs : list string) : bool :=
  existsb (String.eqb x) xs.

(** ** [repr] of a [str] and of a list of [str] *)

Definition hex_digit (n : N) : ascii :=
  if (n <? 10)%N then ascii_of_N (48 + n) else ascii_of_N (87 + n).

Definition isprintable (c : ascii) : bool :=
  negb (in_range 0 31 c || in_range 127 160 c || (ord c =? 173)%N).

Definition backslash : ascii := ascii_of_N 92.
Definition dquote : ascii := ascii_of_N 34.

Definition repr_char (quote : ascii) (c : ascii) : string :=
  if (c =? quote)%char || (c =? backslash)%char
  then String backslash (String c "")
  else if (ord c =? 9)%N then String backslash "t"
  else if (ord c =? 10)%N then String backslash "n"
  else if (ord c =? 13)%N then String backslash "r"
  else if isprintable c then String c ""
  else String backslash (String "x"
         (String (hex_digit (ord c / 16)) (String (hex_digit (ord c mod 16)) ""))).

Fixpoint repr_body (quote : ascii) (s : string) : string :=
  match s with
  | EmptyString => EmptyString
  | String c r => repr_char quote c ++ repr_body quote r
  end.

Definition repr_str (s : string) : string :=
  let quote :=
    if contains "'" s && negb (contains (String dquote "") s)
    then dquote else "'"%char in
  String quote (repr_body quote s ++ String quote "").

Fixpoint repr_items (xs : list string) : string :=
  match xs with
  | [] => ""
  | [x] => repr_str x
  | x :: r => repr_str x ++ ", " ++ repr_items r
  end.

Definition repr_list (xs : list string) : string :=
  "[" ++ repr_items xs ++ "]".

End PyStr.

Import PyStr.

(* ================================================================== *)
(** * Text normalization                                                *)
(* ================================================================== *)

(** [re.sub(r"[^\w\s-]", " ", text)] *)
Fixpoint sub_punct (s : string) : string :=
  match s with
  | EmptyString => EmptyString
  | String c r =>
      String (if is_word c || isspace c || is_hyphen c then c else " "%char)
             (sub_punct r)
  end.

(** The lookahead [(?!\w)] at the head of the rest of the text. *)
Definition next_is_word (r : string) : bool :=
  match r with
  | EmptyString => false
  | String d _ => is_word d
  end.

(** [re.sub(r"(?<!\w)-|-(?!\w)", " ", text)]: every match is one hyphen, and
    both lookarounds inspect the text being scanned, so the substitution is
    a pass that remembers whether the previous character was a word
    character. *)
Fixpoint sub_hyphen_from (prev_word : bool) (s : string) : string :=
  match s with
  | EmptyString => EmptyString
  | String c r =>
      String (if is_hyphen c && (negb prev_word || negb (next_is_word r))
              then " "%char else c)
             (sub_hyphen_from (is_word c) r)
  end.

Definition sub_hyphen (s : string) : string := sub_hyphen_from false s.

(** [re.sub(r"\s+", " ", text)]: [in_run] tells that the previous character
    belongs to the run of whitespace being replaced. *)
Fixpoint sub_spaces_from (in_run : bool) (s : string) : string :=
  match s with
  | EmptyString => EmptyString
  | String c r =>
      if isspace c
      then if in_run then sub_spaces_from true r
           else String " " (sub_spaces_from true r)
      else String c (sub_spaces_from false r)
  end.

Definition sub_spaces (s : string) : string := sub_spaces_from false s.

Definition _normalize_text (text : string) : string :=
  if is_empty text then ""
  else
    let text := strip (lower text) in
    let text := sub_punct text in
    let text := sub_hyphen text in
    let text := sub_spaces text in
    strip text.

(** [_tokenize] *)
Definition _tokenize (text : string) : list string :=
  if is_empty text then [] else split text.


(* ================================================================== *)
(** * Configurable word groups                                          *)
(* ================================================================== *)

Definition DEFAULT_PASSIVE_ACKNOWLEDGEMENTS : list string :=
  [ "yeah"; "yep"; "yup"; "yes";
    "ok"; "okay"; "k";
    "hmm"; "hmmm"; "mmm"; "mmmm"; "uh"; "uhh"; "um"; "umm";
    "uh-huh"; "uh huh"; "mm-hmm"; "mm hmm"; "mhm"; "mmhmm";
    "right"; "alright"; "i see"; "got it"; "gotcha";
    "sure"; "fine"; "cool"; "nice"; "good"; "great";
    "go on"; "continue"; "and" ].

Definition DEFAULT_INTERRUPT_COMMANDS : list string :=
  [ "stop"; "wait"; "pause"; "hold";
    "no"; "nope"; "cancel"; "never mind"; "nevermind";
    "hold on"; "listen"; "hey"; "excuse me";
    "let me speak"; "let me talk"; "my turn"; "actually";
    "wrong"; "incorrect"; "that's wrong"; "not right" ].

Definition DEFAULT_POSITIVE_INDICATORS : list string :=
  [ "yes"; "yeah"; "great"; "good"; "nice"; "perfect"; "works";
    "fine"; "awesome"; "excellent"; "wonderful"; "thanks"; "thank you";
    "helpful"; "correct"; "exactly"; "right"; "understood" ].

Definition DEFAULT_NEGATIVE_INDICATORS : list string :=
  [ "no"; "stop"; "wait"; "wrong"; "bad"; "problem"; "issue";
    "confusing"; "unclear"; "annoyed"; "frustrated"; "don't understand";
    "what"; "huh"; "repeat"; "again"; "slower" ].

(* ================================================================== *)
(** * Data model                                                        *)
(* ================================================================== *)

Inductive EngagementLevel := LOW | MEDIUM | HIGH.

Inductive InterruptionDecision := IGNORE | INTERRUPT | PROCESS.

Record InterruptionResult := mkResult {
  decision : InterruptionDecision;
  reason : string;
  normalized_text : string;
  detected_commands : list string;
  detected_acknowledgements : list string
}.

(** The clock behind [time.time()]: the [n]-th reading is [clock n]. *)
Record World := mkWorld {
  clock : nat -> Q;
  reads : nat
}.

Definition time_time (w : World) : Q * World :=
  (clock w (reads w), mkWorld (clock w) (S (reads w))).

(** [x < y] on numbers, as a test. *)
Definition Qltb (x y : Q) : bool := negb (Qle_bool y x).

(** [min(a, b)] and [max(a, b)] of Python: the first argument is kept unless
    the second is strictly smaller (larger). *)
Definition py_min (a b : Q) : Q := if Qltb b a then b else a.
Definition py_max (a b : Q) : Q := if Qltb a b then b else a.

(** [abs(x)] *)
Definition py_abs (x : Q) : Q := if Qltb x 0 then (- x)%Q else x.

Definition is_nil {A : Type} (xs : list A) : bool :=
  match xs with [] => true | _ => false end.

(** [set(xs)] of a list of strings, kept as a duplicate-free list. *)
Definition set_of (xs : list string) : list string := nodup string_dec xs.

(** [a & b] on sets of strings. *)
Definition set_inter (a b : list string) : list string :=
  filter (fun x => mem x b) a.

(** ** EngagementState *)

Record EngagementState := mkEngagement {
  acknowledgement_timestamps : list Q;
  window_seconds : Q
}.

Definition EngagementState_init : EngagementState := mkEngagement [] 8.

Module Engagement.

Definition _cleanup_old (self : EngagementState) (w : World)
  : EngagementState * World :=
  let (now, w) := time_time w in
  let cutoff := (now - window_seconds self)%Q in
  (mkEngagement
     (filter (fun t => Qltb cutoff t) (acknowledgement_timestamps self))
     (window_seconds self),
   w).

Definition add_acknowledgement (self : EngagementState) (w : World)
  : EngagementState * World :=
  let (now, w) := time_time w in
  _cleanup_old
    (mkEngagement (acknowledgement_timestamps self ++ [now])%list
                  (window_seconds self))
    w.

Definition get_level (self : EngagementState) (w : World)
  : EngagementLevel * EngagementState * World :=
  let (self, w) := _cleanup_old self w in
  let count := List.length (acknowledgement_timestamps self) in
  ((if Nat.leb 3 count then HIGH else if Nat.leb 1 count then MEDIUM else LOW),
   self, w).

Definition get_count (self : EngagementState) (w : World)
  : nat * EngagementState * World :=
  let (self, w) := _cleanup_old self w in
  (List.length (acknowledgement_timestamps self), self, w).

End Engagement.

(** ** SatisfactionState *)

Record SatisfactionState := mkSatisfaction {
  score : Q;
  last_signal : string;
  last_text : string;
  POSITIVE_DELTA : Q;
  NEGATIVE_DELTA : Q;
  DECAY_RATE : Q
}.

(** The state with a given score, signal and text and the declared deltas. *)
Definition satisfaction_with (x : Q) (signal text : string)
  : SatisfactionState :=
  mkSatisfaction x signal text (15 # 100) (20 # 100) (5 # 100).

Definition SatisfactionState_init : SatisfactionState :=
  satisfaction_with 0 "" "".

Module Satisfaction.

Definition update (self : SatisfactionState) (text : string)
    (positive_indicators negative_indicators : list string)
  : SatisfactionState :=
  let normalized := _normalize_text text in
  let words := set_of (split normalized) in
  let positive_found := set_inter words positive_indicators in
  let negative_found := set_inter words negative_indicators in
  if negb (is_nil positive_found) && is_nil negative_found then
    mkSatisfaction (py_min 1 (score self + POSITIVE_DELTA self)%Q)
                   "positive" text
                   (POSITIVE_DELTA self) (NEGATIVE_DELTA self) (DECAY_RATE self)
  else if negb (is_nil negative_found) then
    mkSatisfaction (py_max (- (1)) (score self - NEGATIVE_DELTA self)%Q)
                   "negative" text
                   (POSITIVE_DELTA self) (NEGATIVE_DELTA self) (DECAY_RATE self)
  else self.

Definition set_score (self : SatisfactionState) (x : Q) : SatisfactionState :=
  mkSatisfaction x (last_signal self) (last_text self)
                 (POSITIVE_DELTA self) (NEGATIVE_DELTA self) (DECAY_RATE self).

Definition decay (self : SatisfactionState) : SatisfactionState :=
  if Qltb (1 # 100) (py_abs (score self)) then
    if Qltb 0 (score self)
    then set_score self (py_max 0 (score self - DECAY_RATE self)%Q)
    else set_score self (py_min 0 (score self + DECAY_RATE self)%Q)
  else self.

End Satisfaction.

(** A call on a [SatisfactionState], and a sequence of calls. *)
Inductive SatisfactionCall :=
| CallUpdate (text : string) (positive_indicators negative_indicators : list string)
| CallDecay.

Definition satisfaction_call (self : SatisfactionState) (c : SatisfactionCall)
  : SatisfactionState :=
  match c with
  | CallUpdate text pos neg => Satisfaction.update self text pos neg
  | CallDecay => Satisfaction.decay self
  end.

Definition satisfaction_calls (cs : list SatisfactionCall)
    (self : SatisfactionState) : SatisfactionState :=
  fold_left satisfaction_call cs self.

(* ================================================================== *)
(** * Phrase matching                                                   *)
(* ================================================================== *)

(** [" " in phrase] *)
Definition has_space (phrase : string) : bool := contains " " phrase.

Definition _contains_any_phrase (text : string) (phrases : list string)
  : bool * list string :=
  let found_multi :=
    filter (fun phrase => has_space phrase && contains phrase text) phrases in
  let words := set_of (_tokenize text) in
  let found_single :=
    filter (fun phrase => negb (has_space phrase) && mem phrase words) phrases in
  let found := (found_multi ++ found_single)%list in
  (negb (is_nil found), found).

Definition _is_only_acknowledgements (text : string)
    (acknowledgements : list string) : bool :=
  if is_empty text then false
  else
    let remaining :=
      fold_left
        (fun remaining phrase =>
           if has_space phrase then replace remaining phrase " "
           else remaining)
        acknowledgements text in
    let words := _tokenize remaining in
    if is_nil words then true
    else
      let single_word_acks :=
        filter (fun p => negb (has_space p)) acknowledgements in
      forallb (fun w => mem w single_word_acks) words.

(* ================================================================== *)
(** * InterruptionHandler                                               *)
(* ================================================================== *)

Record InterruptionHandler := mkHandler {
  passive_acknowledgements : list string;
  interrupt_commands : list string;
  positive_indicators : list string;
  negative_indicators : list string;
  engagement_state : EngagementState;
  satisfaction_state : SatisfactionState
}.

(** [InterruptionHandler()] when none of the four environment variables is
    set. *)
Definition InterruptionHandler_init : InterruptionHandler :=
  mkHandler DEFAULT_PASSIVE_ACKNOWLEDGEMENTS DEFAULT_INTERRUPT_COMMANDS
            DEFAULT_POSITIVE_INDICATORS DEFAULT_NEGATIVE_INDICATORS
            EngagementState_init SatisfactionState_init.

Definition with_engagement (self : InterruptionHandler) (e : EngagementState)
  : InterruptionHandler :=
  mkHandler (passive_acknowledgements self) (interrupt_commands self)
            (positive_indicators self) (negative_indicators self)
            e (satisfaction_state self).

Definition with_satisfaction (self : InterruptionHandler)
    (s : SatisfactionState) : InterruptionHandler :=
  mkHandler (passive_acknowledgements self) (interrupt_commands self)
            (positive_indicators self) (negative_indicators self)
            (engagement_state self) s.

Definition classify (self : InterruptionHandler) (w : World)
    (text : string) (agent_is_speaking : bool)
  : InterruptionResult * InterruptionHandler * World :=
  let normalized := _normalize_text text in
  if is_empty normalized then
    (mkResult IGNORE "empty input" normalized [] [], self, w)
  else
    let '(has_interrupt, interrupt_matches) :=
      _contains_any_phrase normalized (interrupt_commands self) in
    let '(has_ack, ack_matches) :=
      _contains_any_phrase normalized (passive_acknowledgements self) in
    let is_only_ack :=
      _is_only_acknowledgements normalized (passive_acknowledgements self) in
    if negb agent_is_speaking then
      let sat :=
        Satisfaction.update (satisfaction_state self) text
          (positive_indicators self) (negative_indicators self) in
      (mkResult PROCESS "agent is silent, processing normally" normalized
                interrupt_matches ack_matches,
       with_satisfaction self sat, w)
    else if has_interrupt then
      (mkResult INTERRUPT
                ("interrupt command detected: " ++ repr_list interrupt_matches)
                normalized interrupt_matches ack_matches,
       self, w)
    else if is_only_ack then
      let (eng, w) := Engagement.add_acknowledgement (engagement_state self) w in
      let '(level, eng, w) := Engagement.get_level eng w in
      let '(count, eng, w) := Engagement.get_count eng w in
      (mkResult IGNORE
                ("passive acknowledgement only: " ++ repr_list ack_matches)
                normalized [] ack_matches,
       with_engagement self eng, w)
    else
      (mkResult INTERRUPT "contains non-acknowledgement content" normalized
                interrupt_matches ack_matches,
       self, w).

Definition decision_eqb (a b : InterruptionDecision) : bool :=
  match a, b with
  | IGNORE, IGNORE | INTERRUPT, INTERRUPT | PROCESS, PROCESS => true
  | _, _ => false
  end.

Definition should_interrupt (self : InterruptionHandler) (w : World)
    (text : string) (agent_is_speaking : bool)
  : bool * InterruptionHandler * World :=
  let '(result, self, w) := classify self w text agent_is_speaking in
  (decision_eqb (decision result) INTERRUPT, self, w).

Definition should_ignore (self : InterruptionHandler) (w : World)
    (text : string) (agent_is_speaking : bool)
  : bool * InterruptionHandler * World :=
  let '(result, self, w) := classify self w text agent_is_speaking in
  (decision_eqb (decision result) IGNORE, self, w).

Definition get_satisfaction_score (self : InterruptionHandler) : Q :=
  score (satisfaction_state self).


(* ================================================================== *)
(** * Notions used in the statements                                    *)
(* ================================================================== *)

(** [p] occurs in [t] as a literal substring. *)
Definition Substring (p t : string) : Prop :=
  exists a b, t = a ++ p ++ b.

(** A match of one vocabulary phrase in a text: a multi-word phrase as a
    literal substring, a single word as a whitespace token. *)
Definition phrase_matches (text phrase : string) : Prop :=
  (has_space phrase = true /\ Substring phrase text)
  \/ (has_space phrase = false /\ In phrase (split text)).

Definition vocabulary_match (text : string) (vocabulary : list string) : Prop :=
  exists phrase, In phrase vocabulary /\ phrase_matches text phrase.

(** AcknowledgementOnlyCheck as the specification words it: remove every
    occurrence of every multi-word acknowledgement phrase, then ask that each
    remaining token be a single-word acknowledgement. *)
Definition remove_phrases (text : string) (phrases : list string) : string :=
  fold_left (fun t p => replace t p " ") phrases text.

Definition AcknowledgementOnlyCheck (text : string) (acks : list string)
  : Prop :=
  text <> ""
  /\ Forall (fun w => In w acks /\ has_space w = false)
            (split (remove_phrases text (filter has_space acks))).

(** A token-aligned occurrence of a phrase: its tokens are consecutive tokens
    of the text. *)
Fixpoint tokens_prefix (xs ys : list string) : bool :=
  match xs, ys with
  | [], _ => true
  | x :: xs', y :: ys' => String.eqb x y && tokens_prefix xs' ys'
  | _ :: _, [] => false
  end.

Fixpoint tokens_infix (xs ys : list string) : bool :=
  tokens_prefix xs ys
  || match ys with
     | [] => false
     | _ :: ys' => tokens_infix xs ys'
     end.

Definition token_aligned (text phrase : string) : bool :=
  tokens_infix (split phrase) (split text).

(** The characters of a string all satisfy a test. *)
Fixpoint all_chars (P : ascii -> bool) (s : string) : bool :=
  match s with
  | EmptyString => true
  | String c r => P c && all_chars P r
  end.

(** [c] is left alone by [str.lower]. *)
Definition lowered (c : ascii) : bool := (lower_char c =? c)%char.

(** The text is empty or begins with a character that is not whitespace. *)
Definition starts_nonspace (s : string) : bool :=
  match s with
  | EmptyString => true
  | String c _ => negb (isspace c)
  end.

(** The shape of the text after the hyphen pass: a hyphen that is still
    there stands between two word characters. *)
Fixpoint kept (prev_word : bool) (s : string) : bool :=
  match s with
  | EmptyString => true
  | String c r =>
      lowered c
      && (is_word c || isspace c
          || (is_hyphen c && prev_word && next_is_word r))
      && kept (is_word c) r
  end.

(** Normal form: lowered word characters, separated by single spaces or
    single hyphens, with no separator at either end. *)
Fixpoint nf (prev_word : bool) (s : string) : bool :=
  match s with
  | EmptyString => prev_word
  | String c r =>
      lowered c
      && (if is_word c then nf true r
          else ((c =? " ")%char || is_hyphen c) && prev_word && nf false r)
  end.

Definition normal (s : string) : Prop := s = "" \/ nf false s = true.

(** The reading of "decay nudges the score toward zero by the step 0.05"
    taken literally: a positive score loses 0.05, a negative one gains it. *)
Definition decay_steps_toward_zero (s : SatisfactionState) : Prop :=
  ((0 < score s)%Q -> (score (Satisfaction.decay s) == score s - (5 # 100))%Q)
  /\ ((score s < 0)%Q -> (score (Satisfaction.decay s) == score s + (5 # 100))%Q).

(** The three components of what [classify] returns: the result handed to
    the caller, the handler after the call, and the clock after the call. *)
Definition result_of (x : InterruptionResult * InterruptionHandler * World)
  : InterruptionResult := fst (fst x).
Definition handler_of (x : InterruptionResult * InterruptionHandler * World)
  : InterruptionHandler := snd (fst x).
Definition world_of (x : InterruptionResult * InterruptionHandler * World)
  : World := snd x.

(** The pruning done by one [_cleanup_old] whose clock reading is [now]. *)
Definition prune (now window : Q) (ts : list Q) : list Q :=
  filter (fun t => Qltb (now - window)%Q t) ts.

(** A character of a normalized text: a word character, a blank or a
    hyphen. *)
Definition plain (c : ascii) : bool :=
  is_word c || (c =? " ")%char || is_hyphen c.

(** A character that is not a word character. *)
Definition nonword (c : ascii) : bool := negb (is_word c).

(** The state keeps the declared deltas and a score between -1 and 1. *)
Definition satisfaction_ok (s : SatisfactionState) : Prop :=
  POSITIVE_DELTA s = 15 # 100 /\ NEGATIVE_DELTA s = 20 # 100
  /\ DECAY_RATE s = 5 # 100 /\ (- (1) <= score s <= 1)%Q.

(** Some word of the normalized text is in the vocabulary. *)
Definition indicator_found (text : string) (vocabulary : list string) : Prop :=
  exists x, In x (split (_normalize_text text)) /\ In x vocabulary.

(** A clock that advances by a millisecond at each reading, and the
    decision of a fresh handler under it. *)
Definition ms_clock : World := mkWorld (fun k => Z.of_nat k # 1000) 0.

Definition decide (text : string) (speaking : bool) : InterruptionDecision :=
  decision (result_of (classify InterruptionHandler_init ms_clock text speaking)).

(* ================================================================== *)
(** * The rest of the module and its callers                            *)
(* ================================================================== *)

(** [s.split(sep)] for a separator of one character: every occurrence of
    the separator ends a piece, and empty pieces are kept. *)
Fixpoint split_on (sep : ascii) (s : string) : list string :=
  match s with
  | EmptyString => [EmptyString]
  | String c r =>
      if (c =? sep)%char then EmptyString :: split_on sep r
      else match split_on sep r with
           | w :: ws => String c w :: ws
           | [] => [String c EmptyString]
           end
  end.

(** The process environment read by [os.getenv]. *)
Definition Environ : Type := string -> option string.

Definition _get_env_words (getenv : Environ) (env_var : string)
    (default : list string) : list string :=
  match getenv env_var with
  | Some env_value =>
      if is_empty env_value then default
      else
        set_of
          (map (fun w => lower (strip w))
               (filter (fun w => negb (is_empty (strip w)))
                       (split_on "," env_value)))
  | None => default
  end.

(** [InterruptionHandler()] under a given environment. *)
Definition InterruptionHandler_new (getenv : Environ) : InterruptionHandler :=
  mkHandler
    (_get_env_words getenv "AGENT_PASSIVE_WORDS" DEFAULT_PASSIVE_ACKNOWLEDGEMENTS)
    (_get_env_words getenv "AGENT_INTERRUPT_WORDS" DEFAULT_INTERRUPT_COMMANDS)
    (_get_env_words getenv "AGENT_POSITIVE_WORDS" DEFAULT_POSITIVE_INDICATORS)
    (_get_env_words getenv "AGENT_NEGATIVE_WORDS" DEFAULT_NEGATIVE_INDICATORS)
    EngagementState_init SatisfactionState_init.

Definition get_engagement_level (self : InterruptionHandler) (w : World)
  : EngagementLevel * InterruptionHandler * World :=
  let '(level, eng, w) := Engagement.get_level (engagement_state self) w in
  (level, with_engagement self eng, w).

(** [log_state]: the two reads of the engagement state prune it; the log line
    itself is omitted. *)
Definition log_state (self : InterruptionHandler) (w : World)
  : InterruptionHandler * World :=
  let '(engagement, eng, w) := Engagement.get_level (engagement_state self) w in
  let satisfaction := score (satisfaction_state self) in
  let '(ack_count, eng, w) := Engagement.get_count eng w in
  (with_engagement self eng, w).

(** The module-level [_handler_instance] and its two accessors.  The handler
    returned by [get_interruption_handler] is the stored object itself. *)
Definition get_interruption_handler (getenv : Environ)
    (_handler_instance : option InterruptionHandler)
  : InterruptionHandler * option InterruptionHandler :=
  match _handler_instance with
  | None =>
      let h := InterruptionHandler_new getenv in (h, Some h)
  | Some h => (h, Some h)
  end.

Definition reset_interruption_handler
    (_handler_instance : option InterruptionHandler)
  : option InterruptionHandler := None.

(** [get_interruption_handler().classify(text, agent_is_speaking)]: the call
    mutates the stored handler. *)
Definition classify_shared (getenv : Environ)
    (_handler_instance : option InterruptionHandler) (w : World)
    (text : string) (agent_is_speaking : bool)
  : InterruptionResult * option InterruptionHandler * World :=
  let '(h, _) := get_interruption_handler getenv _handler_instance in
  let '(result, h, w) := classify h w text agent_is_speaking in
  (result, Some h, w).

(** A caller's sequence of [classify] calls on one handler. *)
Fixpoint classify_calls (self : InterruptionHandler) (w : World)
    (calls : list (string * bool))
  : list InterruptionResult * InterruptionHandler * World :=
  match calls with
  | [] => ([], self, w)
  | (text, agent_is_speaking) :: rest =>
      let '(result, self, w) := classify self w text agent_is_speaking in
      let '(results, self, w) := classify_calls self w rest in
      (result :: results, self, w)
  end.

(** ** interactive_demo.py *)

Definition test_cases : list (string * bool * InterruptionDecision * bool) :=
  [ ("yeah", true, IGNORE, false);
    ("hmm", true, IGNORE, false);
    ("mmmm", true, IGNORE, false);
    ("ok", true, IGNORE, false);
    ("uh-huh", true, IGNORE, false);
    ("right", true, IGNORE, false);
    ("yeah", false, PROCESS, false);
    ("hmm", false, PROCESS, false);
    ("stop", true, INTERRUPT, true);
    ("wait", true, INTERRUPT, true);
    ("hold on", true, INTERRUPT, true);
    ("stop talking", true, INTERRUPT, true);
    ("I have a question", true, INTERRUPT, true) ].

(** One round of the loop of [run_automated_tests]. *)
Definition run_test_case
    (st : bool * InterruptionHandler * World)
    (case : string * bool * InterruptionDecision * bool)
  : bool * InterruptionHandler * World :=
  let '(all_passed, handler, w) := st in
  let '(user_input, agent_speaking, expected_decision, expected_signal) := case in
  let '(result, handler, w) := classify handler w user_input agent_speaking in
  let interrupt_signal_emitted := decision_eqb (decision result) INTERRUPT in
  let decision_ok := decision_eqb (decision result) expected_decision in
  let signal_ok := Bool.eqb interrupt_signal_emitted expected_signal in
  let passed := decision_ok && signal_ok in
  ((if negb passed then false else all_passed), handler, w).

Definition run_automated_tests (handler : InterruptionHandler) (w : World)
  : bool * InterruptionHandler * World :=
  fold_left run_test_case test_cases (true, handler, w).

(** [print_state_summary]: what it prints is omitted, what it does to the
    handler is kept. *)
Definition print_state_summary (handler : InterruptionHandler) (w : World)
  : InterruptionHandler * World :=
  let '(engagement, handler, w) := get_engagement_level handler w in
  let '(ack_count, eng, w) := Engagement.get_count (engagement_state handler) w in
  (with_engagement handler eng, w).

Inductive LoopControl := LoopContinue | LoopBreak.

Record DemoState := mkDemo {
  demo_handler : InterruptionHandler;
  demo_agent_speaking : bool;
  demo_world : World
}.

(** One iteration of the loop of [main].  [line] is what [input] returns,
    [None] when it raises [KeyboardInterrupt] or [EOFError].  The outcome
    carries the classification and the interrupt signal derived from it,
    when the line was handed to the handler. *)
Definition demo_iteration (st : DemoState) (line : option string)
  : LoopControl * option (InterruptionResult * bool) * DemoState :=
  match line with
  | None => (LoopBreak, None, st)
  | Some raw =>
      let user_input := strip raw in
      if is_empty user_input then (LoopContinue, None, st)
      else if (user_input =? "1")%string then
        (LoopContinue, None, mkDemo (demo_handler st) true (demo_world st))
      else if (user_input =? "2")%string then
        (LoopContinue, None, mkDemo (demo_handler st) false (demo_world st))
      else if (lower user_input =? "q")%string then (LoopBreak, None, st)
      else if (lower user_input =? "h")%string then (LoopContinue, None, st)
      else if (lower user_input =? "s")%string then
        let '(h, w) := print_state_summary (demo_handler st) (demo_world st) in
        (LoopContinue, None, mkDemo h (demo_agent_speaking st) w)
      else if (lower user_input =? "t")%string then
        let '(_, h, w) := run_automated_tests (demo_handler st) (demo_world st) in
        (LoopContinue, None, mkDemo h (demo_agent_speaking st) w)
      else
        let '(result, h, w) :=
          classify (demo_handler st) (demo_world st) user_input
                   (demo_agent_speaking st) in
        let interrupt_signal_emitted :=
          decision_eqb (decision result) INTERRUPT in
        (LoopContinue, Some (result, interrupt_signal_emitted),
         mkDemo h (demo_agent_speaking st) w)
  end.

(** The loop of [main] over the lines typed; the end of the lines is the end
    of the input.  It returns, for every line handed to the handler, the
    agent state at that moment, the classification and the signal. *)
Fixpoint demo_loop (st : DemoState) (lines : list string)
  : list (bool * InterruptionResult * bool) * DemoState :=
  match lines with
  | [] => ([], st)
  | line :: rest =>
      match demo_iteration st (Some line) with
      | (LoopBreak, _, st') => ([], st')
      | (LoopContinue, None, st') => demo_loop st' rest
      | (LoopContinue, Some (result, signal), st') =>
          let '(out, st'') := demo_loop st' rest in
          ((demo_agent_speaking st, result, signal) :: out, st'')
      end
  end.

(** [main]: a fresh handler, the agent speaking, the automated tests, then
    the loop. *)
Definition demo_main (getenv : Environ) (w : World) (lines : list string)
  : bool * list (bool * InterruptionResult * bool) * DemoState :=
  let handler := InterruptionHandler_new getenv in
  let '(tests_passed, handler, w) := run_automated_tests handler w in
  let '(out, st) := demo_loop (mkDemo handler true w) lines in
  (tests_passed, out, st).

(** ** Notions used in the further statements *)

(** The classification as a function of the vocabularies, the text and the
    flag alone. *)
Definition classification (acks cmds : list string) (text : string)
    (agent_is_speaking : bool) : InterruptionResult :=
  result_of
    (classify (mkHandler acks cmds [] [] EngagementState_init
                         SatisfactionState_init)
              (mkWorld (fun _ => 0) 0) text agent_is_speaking).

(** The last character of a text is a word character. *)
Fixpoint ends_with_word (s : string) : bool :=
  match s with
  | EmptyString => false
  | String c EmptyString => is_word c
  | String _ r => ends_with_word r
  end.

(** A lowered character that may stand in a normalized text. *)
Definition tidy (c : ascii) : bool := lowered c && plain c.

Definition not_space (c : ascii) : bool := negb (isspace c).

(** A vocabulary entry that a token of a normalized text can equal: no
    blank, and only characters that normalization leaves in place. *)
Definition live (p : string) : bool := negb (has_space p) && all_chars tidy p.

(** The bound reached after [n] steps of 0.05 down from 1. *)
Fixpoint decay_bound (n : nat) : Q :=
  match n with
  | O => 1
  | S k => (decay_bound k - (5 # 100))%Q
  end.

(** A score is in the band where [decay] does nothing, or within [b] of
    zero. *)
Definition within_band_or (b x : Q) : Prop :=
  ((x <= 1 # 100)%Q \/ (x <= b)%Q) /\ ((- (1 # 100) <= x)%Q \/ (- b <= x)%Q).

(** [x] is a timestamp that no window check made with one of the readings
    [r0 .. r0 + 4 k] of the clock [clk] removes. *)
Definition recorded_within (clk : nat -> Q) (r0 k : nat) (W : Q) (x : Q)
  : Prop :=
  forall j, (j <= 4 * k)%nat -> (clk (r0 + j)%nat - W < x)%Q.

(** The handler and the clock after [m] acknowledgements out of [k]: the
    vocabularies, the window and the clock are those of the start, [4 m]
    readings were taken, and the last [m] timestamps are the ones
    recorded. *)
Definition ack_invariant (clk : nat -> Q) (r0 k : nat) (W : Q)
    (acks cmds : list string) (m : nat)
    (h : InterruptionHandler) (w : World) : Prop :=
  passive_acknowledgements h = acks
  /\ interrupt_commands h = cmds
  /\ window_seconds (engagement_state h) = W
  /\ clock w = clk
  /\ reads w = (r0 + 4 * m)%nat
  /\ exists older news,
       acknowledgement_timestamps (engagement_state h) = (older ++ news)%list
       /\ List.length news = m
       /\ Forall (recorded_within clk r0 k W) news.

(** An utterance that [classify] ignores as an acknowledgement. *)
Definition acknowledgement_utterance (acks cmds : list string) (text : string)
  : Prop :=
  _normalize_text text <> ""
  /\ ~ vocabulary_match (_normalize_text text) cmds
  /\ AcknowledgementOnlyCheck (_normalize_text text) acks.

(** The four vocabularies of two handlers are the same. *)
Definition same_vocabularies (h h' : InterruptionHandler) : Prop :=
  passive_acknowledgements h' = passive_acknowledgements h
  /\ interrupt_commands h' = interrupt_commands h
  /\ positive_indicators h' = positive_indicators h
  /\ negative_indicators h' = negative_indicators h.

(** The calls on the satisfaction tracker that a sequence of [classify]
    calls amounts to: one [update] per call made with the agent silent. *)
Definition heard_while_silent (self : InterruptionHandler)
    (calls : list (string * bool)) : list SatisfactionCall :=
  map (fun c => CallUpdate (fst c) (positive_indicators self)
                           (negative_indicators self))
      (filter (fun c => negb (snd c)) calls).

Definition not_comma (c : ascii) : bool := negb (c =? ",")%char.

(** A case of the demo's table passes for given vocabularies. *)
Definition case_passes (acks cmds : list string)
    (case : string * bool * InterruptionDecision * bool) : bool :=
  let '(user_input, agent_speaking, expected_decision, expected_signal) := case in
  let result := classification acks cmds user_input agent_speaking in
  decision_eqb (decision result) expected_decision
  && Bool.eqb (decision_eqb (decision result) INTERRUPT) expected_signal.

(** The environment in which no variable is set. *)
Definition empty_environ : Environ := fun _ => None.

(* ================================================================== *)
(** * Character classes                                                 *)
(* ================================================================== *)

Ltac all_ascii c :=
  destruct c as [[] [] [] [] [] [] [] []]; vm_compute; try reflexivity.

Lemma char_cases (c : ascii) :
  (is_word c = true /\ isspace c = false /\ is_hyphen c = false)
  \/ (is_word c = false /\ isspace c = true /\ is_hyphen c = false)
  \/ (is_word c = false /\ isspace c = false /\ is_hyphen c = true)
  \/ (is_word c = false /\ isspace c = false /\ is_hyphen c = false).
Proof.
  all_ascii c; tauto.
Qed.

Lemma lower_char_idem (c : ascii) : lowered (lower_char c) = true.
Proof. all_ascii c. Qed.

Lemma lower_char_nonword (c : ascii) : is_word c = false -> lower_char c = c.
Proof. all_ascii c; discriminate. Qed.

Lemma lowered_eq (c : ascii) : lowered c = true -> lower_char c = c.
Proof. unfold lowered. apply Ascii.eqb_eq. Qed.

Lemma is_hyphen_eq (c : ascii) : is_hyphen c = true -> c = "-"%char.
Proof. unfold is_hyphen. apply Ascii.eqb_eq. Qed.

Lemma separator_cases (c : ascii) :
  is_word c = false ->
  ((c =? " ")%char || is_hyphen c) = true ->
  (c = " "%char /\ isspace c = true /\ is_hyphen c = false)
  \/ (c = "-"%char /\ isspace c = false /\ is_hyphen c = true).
Proof. all_ascii c; intros; try discriminate; auto. Qed.

Lemma space_facts :
  is_word " " = false /\ isspace " " = true /\ is_hyphen " " = false
  /\ lowered " " = true.
Proof. now vm_compute. Qed.

Lemma hyphen_facts :
  is_word "-" = false /\ isspace "-" = false /\ is_hyphen "-" = true
  /\ lowered "-" = true.
Proof. now vm_compute. Qed.

Arguments is_word : simpl never.
Arguments isspace : simpl never.
Arguments is_hyphen : simpl never.
Arguments lowered : simpl never.
Arguments lower_char : simpl never.

(* ================================================================== *)
(** * Normalization: the passes one by one                              *)
(* ================================================================== *)

Ltac char_case c :=
  let W := fresh "W" in let S := fresh "S" in let H := fresh "H" in
  destruct (char_cases c) as [(W & S & H)|[(W & S & H)|[(W & S & H)|(W & S & H)]]].

Lemma all_chars_lower (s : string) : all_chars lowered (lower s) = true.
Proof.
  induction s as [|c r IH]; simpl; [reflexivity|].
  now rewrite lower_char_idem, IH.
Qed.

Lemma all_chars_lstrip (P : ascii -> bool) (s : string) :
  all_chars P s = true -> all_chars P (lstrip s) = true.
Proof.
  induction s as [|c r IH]; simpl; [easy|].
  intros H. apply andb_true_iff in H as [Hc Hr].
  destruct (isspace c); [auto|]. simpl. now rewrite Hc, Hr.
Qed.

Lemma all_chars_rstrip (P : ascii -> bool) (s : string) :
  all_chars P s = true -> all_chars P (rstrip s) = true.
Proof.
  induction s as [|c r IH]; simpl; [easy|].
  intros H. apply andb_true_iff in H as [Hc Hr].
  specialize (IH Hr).
  destruct (rstrip r) as [|d r'].
  - destruct (isspace c); simpl; [reflexivity|]. now rewrite Hc.
  - change (P c && all_chars P (String d r') = true). now rewrite Hc, IH.
Qed.

Lemma rstrip_cons (c : ascii) (x : string) :
  isspace c = false -> rstrip (String c x) = String c (rstrip x).
Proof.
  intros H. simpl. destruct (rstrip x); [now rewrite H|reflexivity].
Qed.

Lemma next_is_word_sub_punct (s : string) :
  next_is_word (sub_punct s) = next_is_word s.
Proof.
  destruct s as [|c r]; simpl; [reflexivity|].
  char_case c; rewrite W, S, H; simpl; [easy..|].
  apply space_facts.
Qed.

Lemma next_is_word_sub_hyphen (p : bool) (s : string) :
  next_is_word (sub_hyphen_from p s) = next_is_word s.
Proof.
  destruct s as [|c r]; simpl; [reflexivity|].
  char_case c; rewrite H; simpl; try reflexivity.
  destruct (negb p || negb (next_is_word r)); [|reflexivity].
  rewrite W. apply space_facts.
Qed.

Ltac brw :=
  repeat (cbn [orb andb negb];
          match goal with
          | H : ?x = true |- context [?x] => rewrite H
          | H : ?x = false |- context [?x] => rewrite H
          end);
  cbn [orb andb negb].

(** After the punctuation pass and the hyphen pass every hyphen left is
    bounded by word characters. *)
Lemma kept_sub_hyphen (s : string) (p : bool) :
  all_chars lowered s = true ->
  kept p (sub_hyphen_from p (sub_punct s)) = true.
Proof.
  destruct space_facts as (Ws & Ss & Hs & Ls).
  revert p. induction s as [|c r IH]; intros p Hl; [reflexivity|].
  cbn [all_chars] in Hl. apply andb_true_iff in Hl as [Hc Hr].
  cbn [sub_punct sub_hyphen_from kept].
  rewrite next_is_word_sub_hyphen, next_is_word_sub_punct.
  char_case c; brw; try (now apply IH).
  destruct p, (next_is_word r) eqn:N; brw; now apply IH.
Qed.

Lemma kept_lstrip (s : string) :
  kept false s = true -> kept false (lstrip s) = true.
Proof.
  induction s as [|c r IH]; [easy|].
  cbn [lstrip]. intros K.
  destruct (isspace c) eqn:S; [|exact K].
  cbn [kept] in K. apply andb_true_iff in K as [_ K].
  char_case c; try congruence. rewrite W in K. now apply IH.
Qed.

Lemma lstrip_sub_spaces (s : string) (b : bool) :
  lstrip (sub_spaces_from b s) = sub_spaces_from false (lstrip s).
Proof.
  destruct space_facts as (_ & Ss & _).
  revert b. induction s as [|c r IH]; intros b; [reflexivity|].
  cbn [sub_spaces_from lstrip].
  destruct (isspace c) eqn:S.
  - destruct b; cbn [lstrip]; rewrite ?Ss; apply IH.
  - cbn [lstrip sub_spaces_from]. now rewrite S.
Qed.

Lemma lstrip_starts_nonspace (s : string) : starts_nonspace (lstrip s) = true.
Proof.
  induction s as [|c r IH]; [reflexivity|].
  cbn [lstrip]. destruct (isspace c) eqn:S; [exact IH|].
  cbn [starts_nonspace]. now rewrite S.
Qed.

(** The whitespace pass followed by the final trim produces a normal form. *)
Lemma nf_rstrip_sub_spaces (s : string) (p b : bool) :
  kept p s = true ->
  (b = true -> p = false) ->
  (p = false -> b = false -> starts_nonspace s = true) ->
  rstrip (sub_spaces_from b s) = ""
  \/ nf p (rstrip (sub_spaces_from b s)) = true.
Proof.
  destruct space_facts as (Ws & Ss & Hs & Ls).
  revert p b. induction s as [|c r IH]; intros p b K Hb Hn; [now left|].
  cbn [kept] in K. apply andb_true_iff in K as [K Kr].
  apply andb_true_iff in K as [Hc K].
  cbn [sub_spaces_from].
  char_case c; rewrite S; rewrite W in Kr.
  - (* a word character *)
    rewrite rstrip_cons by exact S. right.
    cbn [nf]. rewrite Hc, W. cbn [andb].
    destruct (IH true false Kr) as [E|E]; try easy.
    now rewrite E.
  - (* whitespace *)
    assert (Hr : rstrip (sub_spaces_from true r) = ""
                 \/ nf false (rstrip (sub_spaces_from true r)) = true)
      by (apply IH; easy).
    destruct b.
    + rewrite (Hb eq_refl). exact Hr.
    + assert (p = true) as ->.
      { destruct p; [reflexivity|]. specialize (Hn eq_refl eq_refl).
        cbn [starts_nonspace] in Hn. now rewrite S in Hn. }
      cbn [rstrip].
      destruct (rstrip (sub_spaces_from true r)) as [|d r'] eqn:E'.
      * rewrite Ss. now left.
      * right. destruct Hr as [E|E]; [discriminate|].
        cbn [nf] in *. rewrite Ls, Ws. rewrite Ascii.eqb_refl. cbn [orb andb].
        exact E.
  - (* a hyphen *)
    rewrite W, S, H in K. cbn [orb andb] in K.
    apply andb_true_iff in K as [Kp Kn]. subst p.
    rewrite rstrip_cons by exact S. right.
    destruct r as [|d r]; [discriminate|]. cbn [next_is_word] in Kn.
    assert (Sd : isspace d = false) by (char_case d; congruence).
    destruct (IH false false Kr) as [E|E]; try easy.
    + cbn [starts_nonspace]. now rewrite Sd.
    + cbn [sub_spaces_from] in E. rewrite Sd in E.
      rewrite rstrip_cons in E by exact Sd. discriminate.
    + cbn [nf]. rewrite Hc, W, H, E. cbn [andb orb].
      now rewrite orb_true_r.
  - rewrite W, S, H in K. discriminate.
Qed.

(** The result of the passes on a non-empty text. *)
Lemma normalize_passes (text : string) :
  let t := strip (sub_spaces (sub_hyphen (sub_punct (strip (lower text))))) in
  t = "" \/ nf false t = true.
Proof.
  cbv zeta. unfold sub_spaces, sub_hyphen.
  set (u := sub_hyphen_from false (sub_punct (strip (lower text)))).
  unfold strip. rewrite lstrip_sub_spaces.
  apply nf_rstrip_sub_spaces.
  - apply kept_lstrip. apply kept_sub_hyphen.
    apply all_chars_rstrip, all_chars_lstrip, all_chars_lower.
  - discriminate.
  - intros _ _. apply lstrip_starts_nonspace.
Qed.

Lemma normalize_normal (text : string) : normal (_normalize_text text).
Proof.
  unfold _normalize_text. destruct (is_empty text); [now left|].
  apply normalize_passes.
Qed.

(** ** The passes leave a normal form alone *)

Lemma nf_lower (s : string) (p : bool) : nf p s = true -> lower s = s.
Proof.
  revert p. induction s as [|c r IH]; intros p N; [reflexivity|].
  cbn [nf] in N. apply andb_true_iff in N as [Hc N].
  cbn [lower]. rewrite (lowered_eq c Hc). f_equal.
  destruct (is_word c); [now apply (IH true)|].
  apply andb_true_iff in N as [_ N]. now apply (IH false).
Qed.

Lemma nf_lstrip (s : string) : nf false s = true -> lstrip s = s.
Proof.
  destruct s as [|c r]; [reflexivity|].
  cbn [nf lstrip]. intros N. apply andb_true_iff in N as [_ N].
  char_case c; rewrite W in N; rewrite ?S; try reflexivity.
  all: rewrite andb_false_r in N; discriminate.
Qed.

Lemma nf_rstrip (s : string) (p : bool) : nf p s = true -> rstrip s = s.
Proof.
  revert p. induction s as [|c r IH]; intros p N; [reflexivity|].
  cbn [nf] in N. apply andb_true_iff in N as [_ N].
  cbn [rstrip].
  destruct (is_word c) eqn:W.
  - rewrite (IH true N). destruct r; [|reflexivity].
    char_case c; try congruence. now rewrite S.
  - apply andb_true_iff in N as [_ N]. rewrite (IH false N).
    destruct r; [discriminate|reflexivity].
Qed.

Lemma nf_sub_punct (s : string) (p : bool) : nf p s = true -> sub_punct s = s.
Proof.
  revert p. induction s as [|c r IH]; intros p N; [reflexivity|].
  cbn [nf] in N. apply andb_true_iff in N as [_ N].
  cbn [sub_punct].
  destruct (is_word c) eqn:W.
  - cbn [orb]. f_equal. now apply (IH true).
  - apply andb_true_iff in N as [N Nr]. apply andb_true_iff in N as [Nc _].
    destruct (separator_cases c W Nc) as [(E & S & H)|(E & S & H)];
      rewrite S, H; cbn [orb]; f_equal; now apply (IH false).
Qed.

Lemma nf_next_is_word (s : string) : nf false s = true -> next_is_word s = true.
Proof.
  destruct s as [|c r]; [discriminate|].
  cbn [nf next_is_word]. intros N. apply andb_true_iff in N as [_ N].
  destruct (is_word c); [reflexivity|].
  rewrite andb_false_r in N. discriminate.
Qed.

Lemma nf_sub_hyphen (s : string) (p : bool) :
  nf p s = true -> sub_hyphen_from p s = s.
Proof.
  revert p. induction s as [|c r IH]; intros p N; [reflexivity|].
  cbn [nf] in N. apply andb_true_iff in N as [_ N].
  cbn [sub_hyphen_from].
  destruct (is_word c) eqn:W.
  - rewrite (IH true N). char_case c; try congruence. now rewrite H.
  - apply andb_true_iff in N as [N Nr]. apply andb_true_iff in N as [Nc Np].
    subst p. rewrite (IH false Nr), (nf_next_is_word r Nr).
    cbn [negb orb]. now rewrite andb_false_r.
Qed.

Lemma nf_sub_spaces (s : string) (p b : bool) :
  nf p s = true -> (b = true -> p = false) -> sub_spaces_from b s = s.
Proof.
  revert p b. induction s as [|c r IH]; intros p b N Hb; [reflexivity|].
  cbn [nf] in N. apply andb_true_iff in N as [_ N].
  cbn [sub_spaces_from].
  destruct (is_word c) eqn:W.
  - char_case c; try congruence. rewrite S. f_equal. now apply (IH true).
  - apply andb_true_iff in N as [N Nr]. apply andb_true_iff in N as [Nc Np].
    subst p. destruct b; [now specialize (Hb eq_refl)|].
    destruct (separator_cases c W Nc) as [(E & S & H)|(E & S & H)]; rewrite S.
    + subst c. f_equal. now apply (IH false).
    + f_equal. now apply (IH false).
Qed.

Lemma normalize_nf (t : string) : nf false t = true -> _normalize_text t = t.
Proof.
  intros N. unfold _normalize_text.
  destruct (is_empty t) eqn:E; [now destruct t|].
  unfold strip, sub_hyphen, sub_spaces.
  rewrite (nf_lower t false N), (nf_lstrip t N), (nf_rstrip t false N),
    (nf_sub_punct t false N), (nf_sub_hyphen t false N),
    (nf_sub_spaces t false false N) by discriminate.
  now rewrite (nf_lstrip t N), (nf_rstrip t false N).
Qed.

(* ================================================================== *)
(** * C8: normalization is idempotent                                   *)
(* ================================================================== *)

(** C8. Text normalization is idempotent: for every string [x],
    normalizing the normalized text gives the normalized text again. *)
Theorem normalize_idempotent (x : string) :
  _normalize_text (_normalize_text x) = _normalize_text x.
Proof.
  destruct (normalize_normal x) as [E|N].
  - rewrite E. reflexivity.
  - now apply normalize_nf.
Qed.

(* ================================================================== *)
(** * Facts about the string primitives                                 *)
(* ================================================================== *)

Lemma startswith_spec (p s : string) :
  startswith s p = true <-> exists b, s = p ++ b.
Proof.
  revert s. induction p as [|c p IH]; intros s; cbn [startswith].
  - split; [intros _; now exists s|reflexivity].
  - destruct s as [|d s].
    + split; [discriminate|intros [b E]; discriminate].
    + rewrite andb_true_iff, Ascii.eqb_eq, IH. split.
      * intros [-> [b ->]]. now exists b.
      * intros [b E]. cbn in E. injection E as -> ->. split; [reflexivity|now exists b].
Qed.

Lemma contains_spec (p s : string) : contains p s = true <-> Substring p s.
Proof.
  unfold Substring. split.
  - induction s as [|c r IH]; cbn [contains].
    + destruct (startswith "" p) eqn:E; [|discriminate].
      intros _. apply startswith_spec in E as [b E]. now exists "", b.
    + destruct (startswith (String c r) p) eqn:E.
      * intros _. apply startswith_spec in E as [b E]. now exists "", b.
      * intros H. destruct (IH H) as (a & b & E').
        exists (String c a), b. cbn. now rewrite E'.
  - intros (a & b & ->). induction a as [|c a IH].
    + cbn [append].
      assert (E : startswith (p ++ b) p = true)
        by (apply startswith_spec; now exists b).
      destruct (p ++ b); cbn [contains]; now rewrite E.
    + cbn [append contains]. rewrite IH. now destruct (startswith _ p).
Qed.

Lemma mem_In (x : string) (xs : list string) : mem x xs = true <-> In x xs.
Proof.
  unfold mem. rewrite existsb_exists. split.
  - intros (y & Hy & E). apply String.eqb_eq in E. now subst.
  - intros H. exists x. split; [exact H|apply String.eqb_refl].
Qed.

Lemma mem_set_of (x : string) (xs : list string) :
  mem x (set_of xs) = mem x xs.
Proof.
  apply eq_true_iff_eq. rewrite !mem_In. unfold set_of. apply nodup_In.
Qed.

Lemma tokenize_split (s : string) : _tokenize s = split s.
Proof. now destruct s. Qed.

Lemma is_empty_spec (s : string) : is_empty s = true <-> s = "".
Proof. destruct s; cbn; split; congruence. Qed.

Lemma is_empty_false (s : string) : s <> "" -> is_empty s = false.
Proof. destruct s; [congruence|reflexivity]. Qed.

Lemma is_nil_spec {A : Type} (xs : list A) : is_nil xs = true <-> xs = [].
Proof. destruct xs; cbn; split; congruence. Qed.

(** What [_contains_any_phrase] reports. *)
Lemma contains_any_phrase_In (text : string) (phrases : list string) (q : string) :
  In q (snd (_contains_any_phrase text phrases))
  <-> In q phrases /\ phrase_matches text q.
Proof.
  unfold _contains_any_phrase, phrase_matches. cbn [snd].
  rewrite in_app_iff, !filter_In, mem_set_of, tokenize_split.
  rewrite !andb_true_iff, negb_true_iff, mem_In, contains_spec.
  tauto.
Qed.

Lemma contains_any_phrase_found (text : string) (phrases : list string) :
  fst (_contains_any_phrase text phrases) = true
  <-> vocabulary_match text phrases.
Proof.
  unfold vocabulary_match.
  assert (E : fst (_contains_any_phrase text phrases)
              = negb (is_nil (snd (_contains_any_phrase text phrases))))
    by reflexivity.
  rewrite E. split.
  - destruct (snd (_contains_any_phrase text phrases)) as [|q l] eqn:F;
      [discriminate|].
    intros _. exists q. apply contains_any_phrase_In. rewrite F. now left.
  - intros (q & Hq). apply contains_any_phrase_In in Hq.
    now destruct (snd (_contains_any_phrase text phrases)).
Qed.

Lemma no_match_in_empty (phrases : list string) :
  ~ vocabulary_match "" phrases.
Proof.
  intros (q & _ & [[Hs (a & b & E)]|[_ []]]).
  destruct a; [|discriminate]. destruct q; [|discriminate].
  discriminate.
Qed.

(* ================================================================== *)
(** * The branches of [classify]                                        *)
(* ================================================================== *)

Section Branches.

Variables (self : InterruptionHandler) (w : World) (text : string).

Let normalized := _normalize_text text.
Let commands := snd (_contains_any_phrase normalized (interrupt_commands self)).
Let acks :=
  snd (_contains_any_phrase normalized (passive_acknowledgements self)).

Lemma classify_empty (speaking : bool) :
  normalized = "" ->
  classify self w text speaking
  = (mkResult IGNORE "empty input" "" [] [], self, w).
Proof.
  subst normalized. intros E. unfold classify. now rewrite E.
Qed.

Lemma classify_silent :
  normalized <> "" ->
  classify self w text false
  = (mkResult PROCESS "agent is silent, processing normally" normalized
              commands acks,
     with_satisfaction self
       (Satisfaction.update (satisfaction_state self) text
          (positive_indicators self) (negative_indicators self)),
     w).
Proof.
  subst normalized commands acks. intros E. unfold classify.
  rewrite (is_empty_false _ E).
  destruct (_contains_any_phrase _ (interrupt_commands self)).
  destruct (_contains_any_phrase _ (passive_acknowledgements self)).
  reflexivity.
Qed.

Lemma classify_command :
  normalized <> "" ->
  fst (_contains_any_phrase normalized (interrupt_commands self)) = true ->
  classify self w text true
  = (mkResult INTERRUPT
              ("interrupt command detected: " ++ repr_list commands)
              normalized commands acks,
     self, w).
Proof.
  subst normalized commands acks. intros E F. unfold classify.
  rewrite (is_empty_false _ E).
  destruct (_contains_any_phrase _ (interrupt_commands self)).
  destruct (_contains_any_phrase _ (passive_acknowledgements self)).
  cbn [fst] in F. subst. reflexivity.
Qed.

Lemma classify_acknowledgement :
  normalized <> "" ->
  fst (_contains_any_phrase normalized (interrupt_commands self)) = false ->
  _is_only_acknowledgements normalized (passive_acknowledgements self) = true ->
  let e := engagement_state self in
  let t := fun k => clock w (reads w + k) in
  classify self w text true
  = (mkResult IGNORE
              ("passive acknowledgement only: " ++ repr_list acks)
              normalized [] acks,
     with_engagement self
       (mkEngagement
          (prune (t 3%nat) (window_seconds e)
             (prune (t 2%nat) (window_seconds e)
                (prune (t 1%nat) (window_seconds e)
                   (acknowledgement_timestamps e ++ [t 0%nat]))))
          (window_seconds e)),
     mkWorld (clock w) (reads w + 4)).
Proof.
  subst normalized commands acks. intros E F A. unfold classify.
  rewrite (is_empty_false _ E).
  destruct (_contains_any_phrase _ (interrupt_commands self)).
  destruct (_contains_any_phrase _ (passive_acknowledgements self)).
  cbn [fst] in F. subst. rewrite A.
  cbn. unfold prune.
  rewrite !Nat.add_succ_r, Nat.add_0_r.
  reflexivity.
Qed.

Lemma classify_other :
  normalized <> "" ->
  fst (_contains_any_phrase normalized (interrupt_commands self)) = false ->
  _is_only_acknowledgements normalized (passive_acknowledgements self) = false ->
  classify self w text true
  = (mkResult INTERRUPT "contains non-acknowledgement content" normalized
              commands acks,
     self, w).
Proof.
  subst normalized commands acks. intros E F A. unfold classify.
  rewrite (is_empty_false _ E).
  destruct (_contains_any_phrase _ (interrupt_commands self)).
  destruct (_contains_any_phrase _ (passive_acknowledgements self)).
  cbn [fst] in F. subst. now rewrite A.
Qed.

End Branches.

(* ================================================================== *)
(** * Texts without word characters                                     *)
(* ================================================================== *)

Section BlankPreserving.

Variable P : ascii -> bool.
Hypothesis P_blank : P " " = true.

Lemma all_chars_sub_punct (s : string) :
  all_chars P s = true -> all_chars P (sub_punct s) = true.
Proof.
  induction s as [|c r IH]; [easy|].
  cbn [all_chars sub_punct]. intros H. apply andb_true_iff in H as [Hc Hr].
  rewrite (IH Hr), andb_true_r.
  now destruct (is_word c || isspace c || is_hyphen c).
Qed.

Lemma all_chars_sub_hyphen (s : string) (p : bool) :
  all_chars P s = true -> all_chars P (sub_hyphen_from p s) = true.
Proof.
  revert p. induction s as [|c r IH]; intros p; [easy|].
  cbn [all_chars sub_hyphen_from]. intros H.
  apply andb_true_iff in H as [Hc Hr].
  rewrite (IH _ Hr), andb_true_r.
  now destruct (is_hyphen c && (negb p || negb (next_is_word r))).
Qed.

Lemma all_chars_sub_spaces (s : string) (b : bool) :
  all_chars P s = true -> all_chars P (sub_spaces_from b s) = true.
Proof.
  revert b. induction s as [|c r IH]; intros b; [easy|].
  cbn [all_chars sub_spaces_from]. intros H.
  apply andb_true_iff in H as [Hc Hr].
  destruct (isspace c), b; cbn [all_chars];
    rewrite ?P_blank, ?Hc, ?(IH _ Hr); reflexivity.
Qed.

End BlankPreserving.

Lemma lower_nonword (s : string) : all_chars nonword s = true -> lower s = s.
Proof.
  induction s as [|c r IH]; [easy|].
  cbn [all_chars lower]. intros H. apply andb_true_iff in H as [Hc Hr].
  rewrite (IH Hr). unfold nonword in Hc. apply negb_true_iff in Hc.
  now rewrite (lower_char_nonword c Hc).
Qed.

(** A text with no word character (empty, whitespace only, punctuation
    only) normalizes to the empty string. *)
Lemma normalize_nonword (text : string) :
  all_chars nonword text = true -> _normalize_text text = "".
Proof.
  intros H.
  assert (B : nonword " " = true) by (unfold nonword; now rewrite (proj1 space_facts)).
  assert (A : all_chars nonword (_normalize_text text) = true).
  { unfold _normalize_text. destruct (is_empty text); [reflexivity|].
    rewrite (lower_nonword text H).
    unfold strip, sub_spaces, sub_hyphen.
    apply all_chars_rstrip, all_chars_lstrip, all_chars_sub_spaces,
      all_chars_sub_hyphen, all_chars_sub_punct, all_chars_rstrip,
      all_chars_lstrip; auto. }
  destruct (normalize_normal text) as [E|N]; [exact E|].
  apply nf_next_is_word in N.
  destruct (_normalize_text text) as [|c r]; [reflexivity|].
  cbn [all_chars next_is_word] in *. unfold nonword in A.
  rewrite N in A. discriminate.
Qed.

(* ================================================================== *)
(** * Empty input                                                       *)
(* ================================================================== *)

(** Whenever the normalized text is empty, and in particular for every
    text without a word character of the regular expression (the empty
    text, whitespace only, and punctuation other than the underscore),
    [classify] returns IGNORE with reason "empty input" for both values of
    the speaking flag, and the call leaves the handler (hence both trackers)
    and the clock as they were. *)
Theorem classify_empty_input
    (self : InterruptionHandler) (w : World) (text : string) (speaking : bool) :
  (all_chars nonword text = true -> _normalize_text text = "")
  /\ (_normalize_text text = "" ->
      classify self w text speaking
      = (mkResult IGNORE "empty input" "" [] [], self, w)).
Proof.
  split; [apply normalize_nonword|apply classify_empty].
Qed.

Lemma classify_empty_input_witness :
  _normalize_text " ...  -- ?! " = ""
  /\ classify InterruptionHandler_init (mkWorld (fun _ => 0) 0) " ...  -- ?! " true
     = (mkResult IGNORE "empty input" "" [] [],
        InterruptionHandler_init, mkWorld (fun _ => 0) 0).
Proof.
  pose proof (classify_empty_input InterruptionHandler_init
                (mkWorld (fun _ => 0) 0) " ...  -- ?! " true) as [H1 H2].
  assert (E : _normalize_text " ...  -- ?! " = "") by (apply H1; reflexivity).
  split; [exact E|apply H2; exact E].
Defined.

(* ================================================================== *)
(** * C4: punctuation-only input that is not ignored                    *)
(* ================================================================== *)

(** C4. The underscore is a punctuation character, but it is a word
    character of the regular expression [\w], so the punctuation pass of
    [_normalize_text] keeps it: the punctuation-only text "___" is its own
    normalized form, not the empty string.  A handler with the default
    vocabularies therefore does not ignore it as empty input: with the
    agent speaking the decision is INTERRUPT, with the agent silent it is
    PROCESS, whatever the clock. *)
Theorem punctuation_only_underscores_not_ignored (w : World) :
  is_word "_" = true
  /\ _normalize_text "___" = "___"
  /\ result_of (classify InterruptionHandler_init w "___" true)
     = mkResult INTERRUPT "contains non-acknowledgement content" "___" [] []
  /\ result_of (classify InterruptionHandler_init w "___" false)
     = mkResult PROCESS "agent is silent, processing normally" "___" [] [].
Proof.
  assert (N : _normalize_text "___" = "___") by (vm_compute; reflexivity).
  assert (E : _normalize_text "___" <> "") by (rewrite N; discriminate).
  split; [vm_compute; reflexivity|]. split; [exact N|]. split.
  - rewrite (classify_other InterruptionHandler_init w "___" E);
      [rewrite N|rewrite N..]; vm_compute; reflexivity.
  - rewrite (classify_silent InterruptionHandler_init w "___" E), N.
    vm_compute. reflexivity.
Qed.

(* ================================================================== *)
(** * C5 and C7: the trackers are observational                         *)
(* ================================================================== *)

(** The possible outcomes of one call, branch by branch. *)
Lemma classify_cases
    (self : InterruptionHandler) (w : World) (text : string) (speaking : bool) :
  let n := _normalize_text text in
  let cmds := _contains_any_phrase n (interrupt_commands self) in
  let acks := _contains_any_phrase n (passive_acknowledgements self) in
  let only := _is_only_acknowledgements n (passive_acknowledgements self) in
  let r := classify self w text speaking in
  (n = ""
   /\ r = (mkResult IGNORE "empty input" "" [] [], self, w))
  \/ (n <> "" /\ speaking = false
      /\ result_of r
         = mkResult PROCESS "agent is silent, processing normally" n
                    (snd cmds) (snd acks)
      /\ handler_of r
         = with_satisfaction self
             (Satisfaction.update (satisfaction_state self) text
                (positive_indicators self) (negative_indicators self))
      /\ world_of r = w)
  \/ (n <> "" /\ speaking = true /\ fst cmds = true
      /\ r = (mkResult INTERRUPT
                ("interrupt command detected: " ++ repr_list (snd cmds))
                n (snd cmds) (snd acks), self, w))
  \/ (n <> "" /\ speaking = true /\ fst cmds = false /\ only = true
      /\ result_of r
         = mkResult IGNORE
             ("passive acknowledgement only: " ++ repr_list (snd acks))
             n [] (snd acks)
      /\ (exists e, handler_of r = with_engagement self e))
  \/ (n <> "" /\ speaking = true /\ fst cmds = false /\ only = false
      /\ r = (mkResult INTERRUPT "contains non-acknowledgement content"
                n (snd cmds) (snd acks), self, w)).
Proof.
  cbv zeta.
  destruct (string_dec (_normalize_text text) "") as [E|E].
  { left. split; [exact E|]. now apply classify_empty. }
  right. destruct speaking.
  2:{ left. rewrite (classify_silent self w text E). now repeat split. }
  right.
  destruct (fst (_contains_any_phrase (_normalize_text text)
                   (interrupt_commands self))) eqn:F.
  { left. rewrite (classify_command self w text E F). now repeat split. }
  right.
  destruct (_is_only_acknowledgements (_normalize_text text)
              (passive_acknowledgements self)) eqn:A.
  - left. rewrite (classify_acknowledgement self w text E F A).
    repeat split; try assumption. eexists. reflexivity.
  - right. rewrite (classify_other self w text E F A). now repeat split.
Qed.

(** C5. The two trackers never influence the classification: with the same
    vocabularies, the same text and the same speaking flag, any two
    engagement states, satisfaction states and clocks give the same
    decision, reason, normalized text and lists of matched phrases. *)
Theorem trackers_never_influence
    (acks cmds pos neg : list string)
    (e1 e2 : EngagementState) (s1 s2 : SatisfactionState) (w1 w2 : World)
    (text : string) (speaking : bool) :
  result_of (classify (mkHandler acks cmds pos neg e1 s1) w1 text speaking)
  = result_of (classify (mkHandler acks cmds pos neg e2 s2) w2 text speaking).
Proof.
  pose proof (classify_cases (mkHandler acks cmds pos neg e1 s1) w1 text speaking) as C1.
  pose proof (classify_cases (mkHandler acks cmds pos neg e2 s2) w2 text speaking) as C2.
  cbv zeta in C1, C2. cbn [interrupt_commands passive_acknowledgements] in C1, C2.
  destruct C1 as [(N1 & R1)|[(N1 & P1 & R1 & _)|[(N1 & P1 & F1 & R1)
                 |[(N1 & P1 & F1 & A1 & R1 & _)|(N1 & P1 & F1 & A1 & R1)]]]];
  destruct C2 as [(N2 & R2)|[(N2 & P2 & R2 & _)|[(N2 & P2 & F2 & R2)
                 |[(N2 & P2 & F2 & A2 & R2 & _)|(N2 & P2 & F2 & A2 & R2)]]]];
  try congruence; rewrite ?R1, ?R2; reflexivity.
Qed.

(** C7. Frame condition on the side effects of [classify]: the vocabularies
    are never changed; the satisfaction state changes only on a call with
    the agent silent and a non-empty normalized text; the engagement state
    changes only on a call with the agent speaking that returns IGNORE on the
    acknowledgement-only path.  In particular a call with the agent speaking
    leaves the satisfaction state as it was, and a call with the agent silent
    leaves the engagement state as it was. *)
Theorem classify_frame
    (self : InterruptionHandler) (w : World) (text : string) (speaking : bool) :
  let n := _normalize_text text in
  let r := classify self w text speaking in
  (passive_acknowledgements (handler_of r) = passive_acknowledgements self
   /\ interrupt_commands (handler_of r) = interrupt_commands self
   /\ positive_indicators (handler_of r) = positive_indicators self
   /\ negative_indicators (handler_of r) = negative_indicators self)
  /\ (speaking = true ->
      satisfaction_state (handler_of r) = satisfaction_state self)
  /\ (speaking = false ->
      engagement_state (handler_of r) = engagement_state self)
  /\ (satisfaction_state (handler_of r) <> satisfaction_state self ->
      speaking = false /\ n <> "")
  /\ (engagement_state (handler_of r) <> engagement_state self ->
      speaking = true
      /\ decision (result_of r) = IGNORE
      /\ n <> ""
      /\ fst (_contains_any_phrase n (interrupt_commands self)) = false
      /\ _is_only_acknowledgements n (passive_acknowledgements self) = true).
Proof.
  cbv zeta.
  destruct (classify_cases self w text speaking)
    as [(N & R)|[(N & P & R & Hh & _)|[(N & P & F & R)
       |[(N & P & F & A & R & (e & Hh))|(N & P & F & A & R)]]]];
    cbv zeta in *; unfold result_of, handler_of in *;
    try rewrite R; try rewrite Hh; cbn [fst snd];
    destruct self; cbn; repeat split; try congruence; try tauto.
  all: intros; subst; try congruence.
  all: try (cbn in R; now rewrite R).
Qed.

Lemma classify_frame_witness :
  let w := mkWorld (fun k => inject_Z (Z.of_nat k)) 0 in
  satisfaction_state (handler_of (classify InterruptionHandler_init w "yeah" true))
  = SatisfactionState_init
  /\ engagement_state (handler_of (classify InterruptionHandler_init w "great" false))
     = EngagementState_init.
Proof.
  cbv zeta. split.
  - destruct (classify_frame InterruptionHandler_init
                (mkWorld (fun k => inject_Z (Z.of_nat k)) 0) "yeah" true)
      as (_ & S & _).
    now apply S.
  - destruct (classify_frame InterruptionHandler_init
                (mkWorld (fun k => inject_Z (Z.of_nat k)) 0) "great" false)
      as (_ & _ & E & _).
    now apply E.
Defined.

(* ================================================================== *)
(** * How a reason names the matched phrases                            *)
(* ================================================================== *)

Lemma str_app_assoc (a b c : string) : (a ++ b) ++ c = a ++ b ++ c.
Proof. induction a as [|x a IH]; cbn; [reflexivity|now rewrite IH]. Qed.

Lemma str_app_nil_r (a : string) : a ++ "" = a.
Proof. induction a as [|x a IH]; cbn; [reflexivity|now rewrite IH]. Qed.

Lemma Substring_refl (p : string) : Substring p p.
Proof. exists "", "". cbn. now rewrite str_app_nil_r. Qed.

Lemma Substring_app (p t x y : string) :
  Substring p t -> Substring p (x ++ t ++ y).
Proof.
  intros (a & b & ->). exists (x ++ a), (b ++ y).
  now rewrite !str_app_assoc.
Qed.

Lemma all_chars_app (P : ascii -> bool) (a b : string) :
  all_chars P (a ++ b) = all_chars P a && all_chars P b.
Proof.
  induction a as [|x a IH]; cbn; [reflexivity|].
  now rewrite IH, andb_assoc.
Qed.

Lemma all_chars_Substring (P : ascii -> bool) (q s : string) :
  Substring q s -> all_chars P s = true -> all_chars P q = true.
Proof.
  intros (a & b & ->). rewrite !all_chars_app, !andb_true_iff. tauto.
Qed.

Lemma all_chars_split (P : ascii -> bool) (s : string) :
  all_chars P s = true ->
  Forall (fun q => all_chars P q = true) (split s).
Proof.
  induction s as [|c r IH]; [constructor|].
  cbn [all_chars]. intros H. apply andb_true_iff in H as [Hc Hr].
  specialize (IH Hr). cbn [split].
  assert (One : all_chars P (String c "") = true)
    by (cbn; now rewrite Hc).
  destruct (isspace c); [exact IH|].
  destruct r as [|d r']; [now repeat constructor|].
  destruct (isspace d); [now constructor|].
  destruct (split (String d r')) as [|x xs]; [now repeat constructor|].
  inversion IH; subst. constructor; [|assumption].
  cbn. now rewrite Hc.
Qed.

Lemma nf_plain (s : string) (p : bool) : nf p s = true -> all_chars plain s = true.
Proof.
  revert p. induction s as [|c r IH]; intros p N; [reflexivity|].
  cbn [nf] in N. apply andb_true_iff in N as [_ N].
  cbn [all_chars]. unfold plain at 1.
  destruct (is_word c).
  - cbn [orb andb]. now apply (IH true).
  - apply andb_true_iff in N as [N Nr]. apply andb_true_iff in N as [Nc _].
    cbn [orb] in *. rewrite Nc. now apply (IH false).
Qed.

Lemma normalize_plain (text : string) :
  all_chars plain (_normalize_text text) = true.
Proof.
  destruct (normalize_normal text) as [E|N]; [now rewrite E|].
  now apply nf_plain in N.
Qed.

Lemma phrase_matches_plain (text q : string) :
  all_chars plain text = true -> phrase_matches text q ->
  all_chars plain q = true.
Proof.
  intros A [[_ S]|[_ I]].
  - now apply (all_chars_Substring plain q text).
  - pose proof (all_chars_split plain text A) as F.
    rewrite Forall_forall in F. now apply F.
Qed.

Lemma repr_char_plain (c : ascii) :
  plain c = true ->
  repr_char "'" c = String c "" /\ ("'" =? c)%char = false.
Proof. all_ascii c; intros; try discriminate; now split. Qed.

Lemma repr_str_plain (q : string) :
  all_chars plain q = true -> repr_str q = "'" ++ q ++ "'".
Proof.
  intros A.
  assert (C : contains "'" q = false).
  { induction q as [|c r IH]; [reflexivity|].
    cbn [all_chars] in A. apply andb_true_iff in A as [Hc Hr].
    cbn [contains startswith].
    rewrite (proj2 (repr_char_plain c Hc)). cbn [andb]. now apply IH. }
  unfold repr_str. rewrite C. cbn [andb append]. f_equal.
  induction q as [|c r IH]; [reflexivity|].
  cbn [all_chars] in A. apply andb_true_iff in A as [Hc Hr].
  cbn [repr_body]. rewrite (proj1 (repr_char_plain c Hc)).
  cbn [append]. f_equal. apply IH; [exact Hr|].
  cbn [contains startswith] in C.
  rewrite (proj2 (repr_char_plain c Hc)) in C. exact C.
Qed.

Lemma repr_items_cons (x y : string) (r : list string) :
  repr_items (x :: y :: r) = repr_str x ++ ", " ++ repr_items (y :: r).
Proof. reflexivity. Qed.

Lemma repr_list_names (xs : list string) (q : string) :
  In q xs -> Substring (repr_str q) (repr_list xs).
Proof.
  intros I. unfold repr_list. apply Substring_app.
  induction xs as [|x r IH]; [contradiction|].
  destruct I as [->|I].
  - destruct r as [|y r]; [apply Substring_refl|].
    rewrite repr_items_cons. now exists "", (", " ++ repr_items (y :: r)).
  - specialize (IH I). destruct r as [|y r]; [contradiction|].
    rewrite repr_items_cons.
    destruct IH as (a & b & E). exists (repr_str x ++ ", " ++ a), b.
    rewrite E. now rewrite !str_app_assoc.
Qed.

(* ================================================================== *)
(** * C1: an interrupt command always interrupts                        *)
(* ================================================================== *)

(** C1. If the normalized text contains a match of the interrupt-command
    vocabulary (a multi-word command as a literal substring, or a
    single-word command as a whitespace token), then [classify] with the
    agent speaking returns INTERRUPT; the phrases it reports are exactly the
    commands that match, the reason is "interrupt command detected: "
    followed by their list, in which each of them stands quoted.  Nothing is
    assumed of the acknowledgement vocabulary, so this holds whatever
    acknowledgements the text also contains. *)
Theorem interrupt_command_wins
    (self : InterruptionHandler) (w : World) (text : string) :
  let n := _normalize_text text in
  vocabulary_match n (interrupt_commands self) ->
  let r := classify self w text true in
  let matched := detected_commands (result_of r) in
  decision (result_of r) = INTERRUPT
  /\ matched <> []
  /\ (forall q, In q matched
                <-> In q (interrupt_commands self) /\ phrase_matches n q)
  /\ reason (result_of r) = "interrupt command detected: " ++ repr_list matched
  /\ (forall q, In q matched ->
                Substring ("'" ++ q ++ "'") (reason (result_of r)))
  /\ handler_of r = self
  /\ world_of r = w.
Proof.
  intros n M.
  assert (E : n <> "") by (intros E; rewrite E in M; now apply no_match_in_empty in M).
  pose proof M as F. apply contains_any_phrase_found in F.
  rewrite (classify_command self w text E F).
  cbn [result_of handler_of world_of fst snd decision reason detected_commands].
  fold n.
  split; [reflexivity|]. split; [|split; [|split; [reflexivity|split; [|now split]]]].
  - destruct M as (q & Hq). apply contains_any_phrase_In in Hq.
    intros Z. rewrite Z in Hq. contradiction.
  - intros q. apply contains_any_phrase_In.
  - intros q I.
    assert (P : all_chars plain q = true).
    { apply contains_any_phrase_In in I as [_ I].
      apply (phrase_matches_plain n q); [apply normalize_plain|exact I]. }
    rewrite <- (repr_str_plain q P).
    pose proof (repr_list_names _ q I) as (a & b & R).
    exists ("interrupt command detected: " ++ a), b.
    rewrite R. now rewrite !str_app_assoc.
Qed.

Lemma interrupt_command_wins_witness :
  let r := classify InterruptionHandler_init (mkWorld (fun _ => 0) 0)
             "Yeah okay, but wait!" true in
  decision (result_of r) = INTERRUPT
  /\ detected_commands (result_of r) = ["wait"]
  /\ detected_acknowledgements (result_of r) = ["yeah"; "okay"].
Proof.
  assert (M : vocabulary_match (_normalize_text "Yeah okay, but wait!")
                (interrupt_commands InterruptionHandler_init)).
  { exists "wait". split; [vm_compute; tauto|].
    right. split; [vm_compute; reflexivity|]. vm_compute. tauto. }
  pose proof (interrupt_command_wins InterruptionHandler_init
                (mkWorld (fun _ => 0) 0) "Yeah okay, but wait!" M) as (D & _).
  cbv zeta. split; [exact D|]. split; vm_compute; reflexivity.
Defined.

(* ================================================================== *)
(** * C2: acknowledgements only, or the fallback                        *)
(* ================================================================== *)

Lemma fold_left_multi_word (acks : list string) (text : string) :
  fold_left
    (fun remaining phrase =>
       if has_space phrase then replace remaining phrase " " else remaining)
    acks text
  = remove_phrases text (filter has_space acks).
Proof.
  unfold remove_phrases. revert text.
  induction acks as [|p r IH]; intros text; [reflexivity|].
  cbn [fold_left filter]. destruct (has_space p); cbn [fold_left]; apply IH.
Qed.

(** The check of the code is the check of the specification. *)
Lemma is_only_acknowledgements_spec (text : string) (acks : list string) :
  _is_only_acknowledgements text acks = true
  <-> AcknowledgementOnlyCheck text acks.
Proof.
  unfold _is_only_acknowledgements, AcknowledgementOnlyCheck.
  destruct text as [|c r]; [cbn; split; [discriminate|intros [N _]; congruence]|].
  cbn [is_empty]. rewrite fold_left_multi_word, tokenize_split.
  set (ws := split _).
  assert (F : forallb
                (fun w => mem w (filter (fun p => negb (has_space p)) acks)) ws
              = true
              <-> Forall (fun w => In w acks /\ has_space w = false) ws).
  { rewrite forallb_forall, Forall_forall.
    split; intros H x I; specialize (H x I).
    - apply mem_In, filter_In in H as [H1 H2].
      now apply negb_true_iff in H2.
    - apply mem_In, filter_In. destruct H as [H1 H2].
      now rewrite H2. }
  destruct ws as [|x xs]; cbn [is_nil].
  - split; [intros _; split; [discriminate|constructor]|reflexivity].
  - rewrite F. split; [intros H; split; [discriminate|exact H]|tauto].
Qed.

Lemma Qltb_lt (x y : Q) : Qltb x y = true <-> (x < y)%Q.
Proof.
  unfold Qltb. rewrite negb_true_iff. split.
  - intros H. apply Qnot_le_lt. intros L. apply Qle_bool_iff in L. congruence.
  - intros L. destruct (Qle_bool y x) eqn:E; [|reflexivity].
    apply Qle_bool_iff in E. exfalso. exact (Qlt_not_le _ _ L E).
Qed.

Lemma Qltb_ge (x y : Q) : Qltb x y = false <-> (y <= x)%Q.
Proof.
  unfold Qltb. rewrite negb_false_iff. apply Qle_bool_iff.
Qed.

(** A timestamp inside the window survives the pruning, at the end. *)
Lemma prune_last (now window x : Q) (ts : list Q) :
  Qltb (now - window)%Q x = true ->
  prune now window (ts ++ [x]) = (prune now window ts ++ [x])%list.
Proof.
  intros H. unfold prune. rewrite filter_app. cbn [filter]. now rewrite H.
Qed.

(** C2. For a text whose normalized form is not empty and matches no
    interrupt command, [classify] with the agent speaking returns IGNORE if
    and only if AcknowledgementOnlyCheck holds of the normalized text.  When
    it holds, the reason lists the matched acknowledgements and the
    engagement tracker has recorded one timestamp: the clock reading taken
    first is appended, and the list is then pruned by the three window
    checks that follow, each on a fresh reading; if those readings are less
    than a window later, the new timestamp is the last of the list and the
    others are old ones.  When it does not hold, the
    decision is INTERRUPT with reason "contains non-acknowledgement
    content" and nothing is changed. *)
Theorem acknowledgement_only_or_fallback
    (self : InterruptionHandler) (w : World) (text : string) :
  let n := _normalize_text text in
  n <> "" ->
  ~ vocabulary_match n (interrupt_commands self) ->
  let r := classify self w text true in
  let e := engagement_state self in
  let t := fun k : nat => clock w (reads w + k) in
  (decision (result_of r) = IGNORE
   <-> AcknowledgementOnlyCheck n (passive_acknowledgements self))
  /\ (AcknowledgementOnlyCheck n (passive_acknowledgements self) ->
      reason (result_of r)
      = "passive acknowledgement only: "
        ++ repr_list (detected_acknowledgements (result_of r))
      /\ detected_acknowledgements (result_of r)
         = snd (_contains_any_phrase n (passive_acknowledgements self))
      /\ acknowledgement_timestamps (engagement_state (handler_of r))
         = prune (t 3%nat) (window_seconds e)
             (prune (t 2%nat) (window_seconds e)
                (prune (t 1%nat) (window_seconds e)
                   (acknowledgement_timestamps e ++ [t 0%nat])))
      /\ ((forall k, (1 <= k <= 3)%nat ->
                      (t k - window_seconds e < t 0%nat)%Q) ->
          exists older,
            acknowledgement_timestamps (engagement_state (handler_of r))
            = (older ++ [t 0%nat])%list
            /\ incl older (acknowledgement_timestamps e))
      /\ satisfaction_state (handler_of r) = satisfaction_state self
      /\ reads (world_of r) = (reads w + 4)%nat)
  /\ (~ AcknowledgementOnlyCheck n (passive_acknowledgements self) ->
      decision (result_of r) = INTERRUPT
      /\ reason (result_of r) = "contains non-acknowledgement content"
      /\ handler_of r = self
      /\ world_of r = w).
Proof.
  intros n E M r e t.
  assert (F : fst (_contains_any_phrase n (interrupt_commands self)) = false).
  { destruct (fst _) eqn:F; [|reflexivity].
    now apply contains_any_phrase_found in F. }
  destruct (_is_only_acknowledgements n (passive_acknowledgements self)) eqn:A.
  - pose proof A as A'. apply is_only_acknowledgements_spec in A'.
    subst r. rewrite (classify_acknowledgement self w text E F A).
    cbv zeta. cbn [result_of handler_of world_of fst snd decision reason
                   detected_acknowledgements with_engagement engagement_state
                   satisfaction_state acknowledgement_timestamps reads].
    fold n. split; [tauto|]. split; [|tauto].
    intros _. split; [reflexivity|]. split; [reflexivity|].
    split; [reflexivity|]. split; [|now split].
    intros C. fold e. fold (t 0%nat) (t 1%nat) (t 2%nat) (t 3%nat).
    rewrite !prune_last by (apply Qltb_lt, C; lia).
    eexists. split; [reflexivity|].
    intros x I. unfold prune in I.
    now apply filter_In, proj1, filter_In, proj1, filter_In, proj1 in I.
  - assert (A' : ~ AcknowledgementOnlyCheck n (passive_acknowledgements self)).
    { intros A'. apply is_only_acknowledgements_spec in A'. congruence. }
    subst r. rewrite (classify_other self w text E F A).
    cbn [result_of handler_of world_of fst snd decision reason].
    split; [split; [discriminate|tauto]|]. split; [tauto|].
    intros _. repeat split.
Qed.

Lemma acknowledgement_only_or_fallback_witness :
  let w := mkWorld (fun k => inject_Z (Z.of_nat k)) 0 in
  let r := classify InterruptionHandler_init w "Okay... yeah... uh-huh" true in
  decision (result_of r) = IGNORE
  /\ acknowledgement_timestamps (engagement_state (handler_of r)) = [clock w 0%nat].
Proof.
  cbv zeta.
  set (w := mkWorld (fun k => inject_Z (Z.of_nat k)) 0).
  assert (E : _normalize_text "Okay... yeah... uh-huh" <> "")
    by (vm_compute; discriminate).
  assert (M : ~ vocabulary_match (_normalize_text "Okay... yeah... uh-huh")
                  (interrupt_commands InterruptionHandler_init)).
  { intros M. apply contains_any_phrase_found in M. vm_compute in M.
    discriminate. }
  pose proof (acknowledgement_only_or_fallback InterruptionHandler_init w
                "Okay... yeah... uh-huh" E M) as (D & _).
  cbv zeta in D. split.
  - apply D. apply is_only_acknowledgements_spec. vm_compute. reflexivity.
  - vm_compute. reflexivity.
Defined.

(* ================================================================== *)
(** * The satisfaction score                                            *)
(* ================================================================== *)

Lemma py_min_cases (a b : Q) :
  ((b < a)%Q /\ py_min a b = b) \/ ((a <= b)%Q /\ py_min a b = a).
Proof.
  unfold py_min. destruct (Qltb b a) eqn:E.
  - left. split; [now apply Qltb_lt|reflexivity].
  - right. split; [now apply Qltb_ge|reflexivity].
Qed.

Lemma py_max_cases (a b : Q) :
  ((a < b)%Q /\ py_max a b = b) \/ ((b <= a)%Q /\ py_max a b = a).
Proof.
  unfold py_max. destruct (Qltb a b) eqn:E.
  - left. split; [now apply Qltb_lt|reflexivity].
  - right. split; [now apply Qltb_ge|reflexivity].
Qed.

Lemma py_abs_cases (x : Q) :
  ((x < 0)%Q /\ py_abs x = (- x)%Q) \/ ((0 <= x)%Q /\ py_abs x = x).
Proof.
  unfold py_abs. destruct (Qltb x 0) eqn:E.
  - left. split; [now apply Qltb_lt|reflexivity].
  - right. split; [now apply Qltb_ge|reflexivity].
Qed.

(** Some word of the text is in the vocabulary. *)
Lemma set_inter_found (words vocabulary : list string) :
  is_nil (set_inter (set_of words) vocabulary) = false
  <-> exists x, In x words /\ In x vocabulary.
Proof.
  unfold set_inter, set_of. split.
  - destruct (filter _ _) as [|x l] eqn:F; [discriminate|]. intros _.
    assert (I : In x (filter (fun x => mem x vocabulary) (nodup string_dec words)))
      by (rewrite F; now left).
    apply filter_In in I as [I1 I2]. exists x.
    split; [now apply nodup_In in I1|now apply mem_In].
  - intros (x & I1 & I2).
    assert (I : In x (filter (fun x => mem x vocabulary) (nodup string_dec words))).
    { apply filter_In. split; [now apply nodup_In|now apply mem_In]. }
    now destruct (filter _ _).
Qed.

Lemma set_inter_not_found (words vocabulary : list string) :
  is_nil (set_inter (set_of words) vocabulary) = true
  <-> ~ exists x, In x words /\ In x vocabulary.
Proof.
  rewrite <- set_inter_found. destruct (is_nil _); split; congruence.
Qed.

Lemma update_ok (s : SatisfactionState) (text : string) (pos neg : list string) :
  satisfaction_ok s -> satisfaction_ok (Satisfaction.update s text pos neg).
Proof.
  intros (P & N & D & L & U). unfold Satisfaction.update.
  destruct (negb _ && _).
  - repeat split; cbn; try assumption; rewrite P;
      destruct (py_min_cases 1 (score s + (15 # 100))) as [[I ->]|[I ->]]; lra.
  - destruct (negb _); [|now repeat split].
    repeat split; cbn; try assumption; rewrite N;
      destruct (py_max_cases (- (1)) (score s - (20 # 100))) as [[I ->]|[I ->]]; lra.
Qed.

Lemma decay_ok (s : SatisfactionState) :
  satisfaction_ok s -> satisfaction_ok (Satisfaction.decay s).
Proof.
  intros (P & N & D & L & U). unfold Satisfaction.decay.
  destruct (Qltb (1 # 100) _); [|now repeat split].
  destruct (Qltb 0 (score s)) eqn:Z.
  - apply Qltb_lt in Z.
    repeat split; cbn; try assumption; rewrite D;
      destruct (py_max_cases 0 (score s - (5 # 100))) as [[I ->]|[I ->]]; lra.
  - apply Qltb_ge in Z.
    repeat split; cbn; try assumption; rewrite D;
      destruct (py_min_cases 0 (score s + (5 # 100))) as [[I ->]|[I ->]]; lra.
Qed.

Lemma calls_ok (cs : list SatisfactionCall) (s : SatisfactionState) :
  satisfaction_ok s -> satisfaction_ok (satisfaction_calls cs s).
Proof.
  unfold satisfaction_calls. revert s.
  induction cs as [|c cs IH]; intros s H; [exact H|].
  cbn [fold_left]. apply IH.
  destruct c; [now apply update_ok|now apply decay_ok].
Qed.

Lemma init_ok : satisfaction_ok SatisfactionState_init.
Proof. repeat split; cbn; lra. Qed.

Lemma update_cases (s : SatisfactionState) (text : string) (pos neg : list string) :
  let s' := Satisfaction.update s text pos neg in
  (indicator_found text pos /\ ~ indicator_found text neg ->
   s' = mkSatisfaction (py_min 1 (score s + POSITIVE_DELTA s)) "positive" text
          (POSITIVE_DELTA s) (NEGATIVE_DELTA s) (DECAY_RATE s))
  /\ (indicator_found text neg ->
      s' = mkSatisfaction (py_max (- (1)) (score s - NEGATIVE_DELTA s))
             "negative" text
             (POSITIVE_DELTA s) (NEGATIVE_DELTA s) (DECAY_RATE s))
  /\ (~ indicator_found text pos /\ ~ indicator_found text neg -> s' = s).
Proof.
  cbv zeta. unfold Satisfaction.update, indicator_found.
  set (ws := split (_normalize_text text)).
  destruct (is_nil (set_inter (set_of ws) pos)) eqn:P;
    destruct (is_nil (set_inter (set_of ws) neg)) eqn:N;
    cbn [negb andb];
    repeat match goal with
      | H : is_nil _ = true |- _ => apply (proj1 (set_inter_not_found _ _)) in H
      | H : is_nil _ = false |- _ => apply (proj1 (set_inter_found _ _)) in H
      end;
    repeat split; intros; try reflexivity; tauto.
Qed.

(* ================================================================== *)
(** * C3: the agent is silent                                           *)
(* ================================================================== *)




(* ================================================================== *)
(** * C6: the score stays within [-1, 1]                                *)
(* ================================================================== *)

(** C6. Starting from the initial state (score 0.0), after any sequence of
    [update] and [decay] calls with arbitrary texts and vocabularies the
    score lies between -1 and 1.  On such a state, [update] adds 0.15 and
    clamps at 1 when a positive indicator is found and no negative one, and
    subtracts 0.20 and clamps at -1 when a negative indicator is found;
    otherwise it changes nothing. *)
Theorem satisfaction_score_bounded (cs : list SatisfactionCall) :
  let s := satisfaction_calls cs SatisfactionState_init in
  (- (1) <= score s <= 1)%Q
  /\ forall (text : string) (pos neg : list string),
       let s' := Satisfaction.update s text pos neg in
       (indicator_found text pos /\ ~ indicator_found text neg ->
        ((score s + (15 # 100) < 1)%Q -> score s' = (score s + (15 # 100))%Q)
        /\ ((1 <= score s + (15 # 100))%Q -> score s' = 1%Q))
       /\ (indicator_found text neg ->
           ((- (1) < score s - (20 # 100))%Q ->
            score s' = (score s - (20 # 100))%Q)
           /\ ((score s - (20 # 100) <= - (1))%Q -> score s' = (- (1))%Q))
       /\ (~ indicator_found text pos /\ ~ indicator_found text neg -> s' = s).
Proof.
  cbv zeta.
  pose proof (calls_ok cs _ init_ok) as (P & N & D & B).
  set (s := satisfaction_calls cs SatisfactionState_init) in *.
  split; [exact B|]. intros text pos neg.
  destruct (update_cases s text pos neg) as (U1 & U2 & U3). cbv zeta in *.
  split; [|split; [|exact U3]].
  - intros H. rewrite (U1 H). cbn [score]. rewrite P.
    destruct (py_min_cases 1 (score s + (15 # 100))) as [[I ->]|[I ->]];
      split; intros; try reflexivity; lra.
  - intros H. rewrite (U2 H). cbn [score]. rewrite N.
    destruct (py_max_cases (- (1)) (score s - (20 # 100))) as [[I ->]|[I ->]];
      split; intros; try reflexivity; lra.
Qed.

Lemma satisfaction_score_bounded_witness :
  let s := satisfaction_calls
             (repeat (CallUpdate "Great, thanks!" DEFAULT_POSITIVE_INDICATORS
                        DEFAULT_NEGATIVE_INDICATORS) 7)
             SatisfactionState_init in
  (- (1) <= score s <= 1)%Q
  /\ score (Satisfaction.update s "perfect" DEFAULT_POSITIVE_INDICATORS
              DEFAULT_NEGATIVE_INDICATORS) = 1%Q.
Proof.
  cbv zeta.
  pose proof (satisfaction_score_bounded
                (repeat (CallUpdate "Great, thanks!" DEFAULT_POSITIVE_INDICATORS
                           DEFAULT_NEGATIVE_INDICATORS) 7)) as (B & U).
  cbv zeta in B, U. split; [exact B|].
  destruct (U "perfect" DEFAULT_POSITIVE_INDICATORS DEFAULT_NEGATIVE_INDICATORS)
    as (U1 & _).
  apply U1.
  - split.
    + exists "perfect". split; vm_compute; tauto.
    + intros (x & I1 & I2). vm_compute in I1. destruct I1 as [<-|[]].
      vm_compute in I2. repeat (destruct I2 as [I2|I2]; [discriminate|]).
      exact I2.
  - vm_compute. discriminate.
Defined.

(* ================================================================== *)
(** * C9: decay                                                         *)
(* ================================================================== *)

(** C9, as stated, fails: a score of 0.005 is positive and [decay] leaves it
    where it is, so not every score is moved toward zero by the step. *)
Lemma decay_leaves_small_score :
  let s := satisfaction_with (1 # 200) "" "" in
  Satisfaction.decay s = s
  /\ (0 < score s)%Q
  /\ ~ decay_steps_toward_zero s.
Proof.
  cbv zeta.
  assert (E : Satisfaction.decay (satisfaction_with (1 # 200) "" "")
              = satisfaction_with (1 # 200) "" "") by reflexivity.
  split; [exact E|]. split; [reflexivity|].
  intros [H _]. rewrite E in H. cbn in H.
  assert (P : (0 < 1 # 200)%Q) by reflexivity.
  specialize (H P). lra.
Qed.

(** C9, amended. [decay] moves a score whose absolute value exceeds 0.01
    toward zero by 0.05 without crossing zero, and leaves the state as it is
    when the absolute value of the score is at most 0.01; it changes nothing
    but the score.  [classify] never runs [decay]: after a call the
    satisfaction state is the one before the call when the agent is speaking
    or the normalized text is empty, and the result of [update] otherwise. *)
Theorem decay_step_and_classify_never_decays
    (x : Q) (signal last : string)
    (self : InterruptionHandler) (w : World) (text : string) (speaking : bool) :
  let s := satisfaction_with x signal last in
  let s' := Satisfaction.decay s in
  (((5 # 100) <= x)%Q -> (score s' == x - (5 # 100))%Q)
  /\ (((1 # 100) < x <= (5 # 100))%Q -> (score s' == 0)%Q)
  /\ ((x <= - (5 # 100))%Q -> (score s' == x + (5 # 100))%Q)
  /\ ((- (5 # 100) <= x < - (1 # 100))%Q -> (score s' == 0)%Q)
  /\ ((- (1 # 100) <= x <= (1 # 100))%Q -> s' = s)
  /\ s' = satisfaction_with (score s') signal last
  /\ (let h' := handler_of (classify self w text speaking) in
      (speaking = true \/ _normalize_text text = "" ->
       satisfaction_state h' = satisfaction_state self)
      /\ (speaking = false /\ _normalize_text text <> "" ->
          satisfaction_state h'
          = Satisfaction.update (satisfaction_state self) text
              (positive_indicators self) (negative_indicators self))).
Proof.
  cbv zeta. unfold Satisfaction.decay.
  cbn [satisfaction_with score DECAY_RATE].
  assert (A : Qltb (1 # 100) (py_abs x) = true <-> ((1 # 100) < x \/ x < - (1 # 100))%Q).
  { rewrite Qltb_lt. destruct (py_abs_cases x) as [[I ->]|[I ->]]; lra. }
  repeat apply conj.
  - intros H.
    assert (T : Qltb (1 # 100) (py_abs x) = true) by (apply A; lra).
    assert (Z : Qltb 0 x = true) by (apply Qltb_lt; lra). rewrite T, Z. cbn.
    destruct (py_max_cases 0 (x - (5 # 100))) as [[I ->]|[I ->]]; lra.
  - intros H.
    assert (T : Qltb (1 # 100) (py_abs x) = true) by (apply A; lra).
    assert (Z : Qltb 0 x = true) by (apply Qltb_lt; lra). rewrite T, Z. cbn.
    destruct (py_max_cases 0 (x - (5 # 100))) as [[I ->]|[I ->]]; lra.
  - intros H.
    assert (T : Qltb (1 # 100) (py_abs x) = true) by (apply A; lra).
    assert (Z : Qltb 0 x = false) by (apply Qltb_ge; lra). rewrite T, Z. cbn.
    destruct (py_min_cases 0 (x + (5 # 100))) as [[I ->]|[I ->]]; lra.
  - intros H.
    assert (T : Qltb (1 # 100) (py_abs x) = true) by (apply A; lra).
    assert (Z : Qltb 0 x = false) by (apply Qltb_ge; lra). rewrite T, Z. cbn.
    destruct (py_min_cases 0 (x + (5 # 100))) as [[I ->]|[I ->]]; lra.
  - intros H. destruct (Qltb (1 # 100) (py_abs x)); [|reflexivity].
    destruct (proj1 A eq_refl); lra.
  - destruct (Qltb (1 # 100) (py_abs x)); [|reflexivity].
    now destruct (Qltb 0 x).
  - intros H.
    destruct (classify_cases self w text speaking)
      as [(N & R)|[(N & P & R & Hh & _)|[(N & P & F & R)
         |[(N & P & F & O & R & (e & Hh))|(N & P & F & O & R)]]]];
      cbv zeta in *; unfold handler_of in *;
      try rewrite R; try rewrite Hh; try reflexivity.
    destruct H; congruence.
  - intros [H1 H2].
    destruct (classify_cases self w text speaking)
      as [(N & R)|[(N & P & R & Hh & _)|[(N & P & F & R)
         |[(N & P & F & O & R & (e & Hh))|(N & P & F & O & R)]]]];
      cbv zeta in *; unfold handler_of in *; try congruence.
    now rewrite Hh.
Qed.

Lemma decay_step_and_classify_never_decays_witness :
  (score (Satisfaction.decay (satisfaction_with (30 # 100) "positive" "great"))
   == 25 # 100)%Q
  /\ score (satisfaction_state
              (handler_of (classify InterruptionHandler_init
                             (mkWorld (fun _ => 0) 0) "great" false)))
     = (0 + (15 # 100))%Q.
Proof.
  destruct (decay_step_and_classify_never_decays (30 # 100) "positive" "great"
              InterruptionHandler_init (mkWorld (fun _ => 0) 0) "great" false)
    as (D & _ & _ & _ & _ & _ & _ & U).
  split.
  - rewrite D; [reflexivity|]. vm_compute. discriminate.
  - rewrite U; [reflexivity|]. split; [reflexivity|]. vm_compute. discriminate.
Defined.

(* ================================================================== *)
(** * C10: multi-word phrases ignore word boundaries                    *)
(* ================================================================== *)

(** C10. Multi-word phrase matching is not word-boundary-aware: the text
    "household only" is normalized, none of the default interrupt commands
    or acknowledgements occurs in it as a run of whole tokens, and yet the
    phrase matcher reports the multi-word command "hold on", whose
    characters stand inside it, so that [classify] returns INTERRUPT while
    the agent is speaking. *)
Theorem multi_word_match_crosses_tokens :
  exists text,
    text = "household only"
    /\ _normalize_text text = text
    /\ (forall p,
          In p DEFAULT_INTERRUPT_COMMANDS \/ In p DEFAULT_PASSIVE_ACKNOWLEDGEMENTS ->
          token_aligned text p = false)
    /\ has_space "hold on" = true
    /\ Substring "hold on" text
    /\ _contains_any_phrase text DEFAULT_INTERRUPT_COMMANDS = (true, ["hold on"])
    /\ forall w,
         classify InterruptionHandler_init w text true
         = (mkResult INTERRUPT "interrupt command detected: ['hold on']" text
                     ["hold on"] [],
            InterruptionHandler_init, w).
Proof.
  exists "household only". split; [reflexivity|].
  split; [reflexivity|]. split; [|split; [reflexivity|split; [|split]]].
  - intros p H. rewrite <- in_app_iff in H.
    assert (A : forallb (fun p => negb (token_aligned "household only" p))
                  (DEFAULT_INTERRUPT_COMMANDS ++ DEFAULT_PASSIVE_ACKNOWLEDGEMENTS)
                = true) by (vm_compute; reflexivity).
    rewrite forallb_forall in A. specialize (A p H).
    now apply negb_true_iff in A.
  - now exists "house", "ly".
  - vm_compute. reflexivity.
  - intros w.
    rewrite (classify_command InterruptionHandler_init w "household only").
    + vm_compute. reflexivity.
    + vm_compute. discriminate.
    + vm_compute. reflexivity.
Qed.

(* ================================================================== *)
(** * The scenarios of the test suite                                   *)
(* ================================================================== *)

Example normalize_examples :
  _normalize_text " Okay... yeah!! " = "okay yeah"
  /\ _normalize_text "  UH-HUH!  " = "uh-huh"
  /\ _normalize_text "a   b   c" = "a b c"
  /\ _normalize_text "a--b -a- a-b-c -" = "a b a a-b-c"
  /\ _normalize_text "___" = "___".
Proof. repeat split; vm_compute; reflexivity. Qed.

Example speaking_examples :
  decide "yeah" true = IGNORE
  /\ decide "uh-huh yeah ok" true = IGNORE
  /\ decide "Okay... yeah... uh-huh" true = IGNORE
  /\ decide "stop" true = INTERRUPT
  /\ decide "No stop" true = INTERRUPT
  /\ decide "Yeah okay but wait" true = INTERRUPT
  /\ decide "hello there" true = INTERRUPT
  /\ decide "I have a question" true = INTERRUPT
  /\ decide "   " true = IGNORE
  /\ decide "..." true = IGNORE.
Proof. repeat split; vm_compute; reflexivity. Qed.

Example silent_examples :
  decide "yeah" false = PROCESS
  /\ decide "stop" false = PROCESS
  /\ decide "tell me more" false = PROCESS
  /\ decide "" false = IGNORE.
Proof. repeat split; vm_compute; reflexivity. Qed.

Example engagement_example :
  let '(_, h1, w1) := classify InterruptionHandler_init ms_clock "yeah" true in
  let '(_, h2, w2) := classify h1 w1 "ok" true in
  let '(_, h3, w3) := classify h2 w2 "hmm" true in
  fst (fst (Engagement.get_level (engagement_state h3) w3)) = HIGH.
Proof. vm_compute. reflexivity. Qed.

Example repr_example :
  repr_list ["uh huh"; "that's wrong"]
  = "['uh huh', " ++ String dquote ("that's wrong" ++ String dquote "]").
Proof. vm_compute. reflexivity. Qed.


(* ================================================================== *)
(** * Further properties: normalization and tokens                      *)
(* ================================================================== *)

Lemma nf_tidy (s : string) (p : bool) : nf p s = true -> all_chars tidy s = true.
Proof.
  revert p. induction s as [|c r IH]; intros p N; [reflexivity|].
  cbn [nf] in N. apply andb_true_iff in N as [Hc N].
  cbn [all_chars]. unfold tidy at 1, plain. rewrite Hc. cbn [andb].
  destruct (is_word c).
  - cbn [orb]. now apply (IH true).
  - apply andb_true_iff in N as [N Nr]. apply andb_true_iff in N as [Nc _].
    cbn [orb] in *. rewrite Nc. now apply (IH false).
Qed.

Lemma ends_with_word_cons (x : ascii) (a : string) :
  ends_with_word (String x a)
  = if is_empty a then is_word x else ends_with_word a.
Proof. now destruct a. Qed.

Lemma nf_separator (a b : string) (c : ascii) (p : bool) :
  nf p (a ++ String c b) = true -> is_word c = false ->
  (c = " "%char \/ c = "-"%char)
  /\ (if is_empty a then p else ends_with_word a) = true
  /\ next_is_word b = true.
Proof.
  revert p. induction a as [|x a IH]; intros p N W.
  - cbn [append nf is_empty] in *. rewrite W in N.
    apply andb_true_iff in N as [_ N].
    apply andb_true_iff in N as [N Nb]. apply andb_true_iff in N as [Nc Np].
    destruct (separator_cases c W Nc) as [(E & _)|(E & _)];
      (split; [tauto|split; [exact Np|now apply nf_next_is_word]]).
  - cbn [append nf] in N. apply andb_true_iff in N as [_ N].
    assert (N' : nf (is_word x) (a ++ String c b) = true).
    { destruct (is_word x); [exact N|].
      now apply andb_true_iff in N as [_ N]. }
    destruct (IH _ N' W) as (Hc & Ha & Hb).
    split; [exact Hc|split; [|exact Hb]].
    cbn [is_empty]. now rewrite ends_with_word_cons.
Qed.

(** The shape of a normalized text: lowered word characters, blanks and
    hyphens only, and every blank or hyphen stands between two word
    characters (so there is no leading, trailing or doubled blank, and no
    dangling hyphen). *)
Theorem normalized_text_shape (text : string) :
  let n := _normalize_text text in
  all_chars tidy n = true
  /\ forall (a b : string) (c : ascii),
       n = a ++ String c b -> is_word c = false ->
       (c = " "%char \/ c = "-"%char)
       /\ ends_with_word a = true /\ next_is_word b = true.
Proof.
  cbv zeta. destruct (normalize_normal text) as [E|N].
  - rewrite E. split; [reflexivity|]. intros a b c H. now destruct a.
  - split; [now apply nf_tidy in N|]. intros a b c E W.
    rewrite E in N. destruct (nf_separator a b c false N W) as (Hc & Ha & Hb).
    split; [exact Hc|split; [|exact Hb]].
    now destruct a.
Qed.

Lemma isspace_lower_char (c : ascii) : isspace (lower_char c) = isspace c.
Proof. all_ascii c. Qed.

Lemma lower_lower (s : string) : lower (lower s) = lower s.
Proof.
  induction s as [|c r IH]; [reflexivity|]. cbn [lower].
  now rewrite IH, (lowered_eq _ (lower_char_idem c)).
Qed.

Lemma lower_lstrip (s : string) : lower (lstrip s) = lstrip (lower s).
Proof.
  induction s as [|c r IH]; [reflexivity|]. cbn [lower lstrip].
  rewrite isspace_lower_char. now destruct (isspace c).
Qed.

Lemma lower_rstrip (s : string) : lower (rstrip s) = rstrip (lower s).
Proof.
  induction s as [|c r IH]; [reflexivity|]. cbn [lower rstrip].
  rewrite <- IH, isspace_lower_char.
  destruct (rstrip r); cbn [lower]; [now destruct (isspace c)|reflexivity].
Qed.

Lemma lower_strip (s : string) : lower (strip s) = strip (lower s).
Proof. unfold strip. now rewrite lower_rstrip, lower_lstrip. Qed.

Lemma rstrip_rstrip (s : string) : rstrip (rstrip s) = rstrip s.
Proof.
  induction s as [|c r IH]; [reflexivity|]. cbn [rstrip].
  destruct (rstrip r) as [|d r'] eqn:E.
  - destruct (isspace c) eqn:S; [reflexivity|]. cbn [rstrip]. now rewrite S.
  - change (rstrip (String c (String d r')) = String c (String d r')).
    cbn [rstrip] in *. now rewrite IH.
Qed.

Lemma lstrip_nonspace (s : string) : starts_nonspace s = true -> lstrip s = s.
Proof.
  destruct s as [|c r]; [reflexivity|]. cbn [starts_nonspace lstrip].
  now destruct (isspace c).
Qed.

Lemma rstrip_starts_nonspace (s : string) :
  starts_nonspace s = true -> starts_nonspace (rstrip s) = true.
Proof.
  destruct s as [|c r]; [reflexivity|]. cbn [starts_nonspace]. intros H.
  apply negb_true_iff in H. rewrite (rstrip_cons c r H).
  cbn [starts_nonspace]. now rewrite H.
Qed.

Lemma strip_strip (s : string) : strip (strip s) = strip s.
Proof.
  unfold strip.
  rewrite (lstrip_nonspace (rstrip (lstrip s)))
    by apply rstrip_starts_nonspace, lstrip_starts_nonspace.
  apply rstrip_rstrip.
Qed.

(** Normalization does not see the case of the letters nor the whitespace
    around the text. *)
Theorem normalize_ignores_case_and_margins (text : string) :
  _normalize_text (lower text) = _normalize_text text
  /\ _normalize_text (strip text) = _normalize_text text.
Proof.
  split.
  - unfold _normalize_text. rewrite lower_lower. now destruct text.
  - unfold _normalize_text.
    destruct text as [|c r]; [reflexivity|]. cbn [is_empty].
    rewrite lower_strip, strip_strip.
    destruct (strip (String c r)) eqn:E; [|reflexivity].
    cbn [is_empty]. rewrite <- lower_strip, E. reflexivity.
Qed.

Lemma all_space_lstrip (s : string) :
  all_chars isspace s = true <-> lstrip s = "".
Proof.
  induction s as [|c r IH]; [easy|]. cbn [all_chars lstrip].
  destruct (isspace c); cbn [andb]; [exact IH|]. split; discriminate.
Qed.

Lemma split_nil (s : string) : split s = [] <-> all_chars isspace s = true.
Proof.
  induction s as [|c r IH]; [easy|]. cbn [split all_chars].
  destruct (isspace c); cbn [andb]; [exact IH|].
  split; [|discriminate].
  destruct r as [|d r']; [discriminate|].
  destruct (isspace d); [discriminate|].
  destruct (split (String d r')); discriminate.
Qed.

Lemma split_cons (c : ascii) (r : string) :
  split (String c r)
  = if isspace c then split r
    else match r with
         | EmptyString => [String c EmptyString]
         | String d _ =>
             if isspace d then String c EmptyString :: split r
             else match split r with
                  | w :: ws => String c w :: ws
                  | [] => [String c EmptyString]
                  end
         end.
Proof. reflexivity. Qed.

(** The first token of a text that begins with a character other than
    whitespace is a prefix of the text. *)
Lemma split_head (c : ascii) (r : string) :
  isspace c = false ->
  exists w ws b, split (String c r) = String c w :: ws
                 /\ String c r = String c w ++ b.
Proof.
  revert c. induction r as [|d r IH]; intros c S.
  - exists "", [], "". rewrite split_cons. now rewrite S.
  - rewrite split_cons, S. destruct (isspace d) eqn:Sd.
    + exists "", (split (String d r)), (String d r). now split.
    + destruct (IH d Sd) as (w & ws & b & E1 & E2). rewrite E1.
      exists (String d w), ws, b. split; [reflexivity|].
      cbn [append] in *. now rewrite E2 at 1.
Qed.

Lemma split_Substring (s q : string) : In q (split s) -> Substring q s.
Proof.
  induction s as [|c r IH]; [contradiction|].
  destruct (isspace c) eqn:S.
  - rewrite split_cons, S. intros I. destruct (IH I) as (a & b & E).
    exists (String c a), b. cbn. now rewrite E.
  - destruct (split_head c r S) as (w & ws & b & E1 & E2).
    intros I. rewrite E1 in I. destruct I as [<-|I].
    + exists "", b. exact E2.
    + assert (I' : In q (split r)).
      { rewrite split_cons, S in E1.
        destruct r as [|d r']; [now injection E1 as _ <-|].
        destruct (isspace d).
        - injection E1 as _ <-. exact I.
        - destruct (split (String d r')); injection E1 as _ <-;
            [contradiction|now right]. }
      destruct (IH I') as (a & b' & E).
      exists (String c a), b'. cbn. now rewrite E.
Qed.

Lemma split_tokens (s : string) :
  Forall (fun q => q <> "" /\ all_chars not_space q = true) (split s).
Proof.
  induction s as [|c r IH]; [constructor|]. cbn [split].
  destruct (isspace c) eqn:S; [exact IH|].
  assert (One : String c "" <> "" /\ all_chars not_space (String c "") = true).
  { split; [discriminate|]. cbn. unfold not_space. now rewrite S. }
  destruct r as [|d r']; [now repeat constructor|].
  destruct (isspace d); [now constructor|].
  destruct (split (String d r')) as [|x xs]; [now repeat constructor|].
  inversion IH as [|? ? [_ Hx] Hxs]; subst. constructor; [|assumption].
  split; [discriminate|]. cbn. unfold not_space at 1. now rewrite S.
Qed.

(** [_tokenize] returns the empty list exactly for a text of whitespace
    (the empty text included); its tokens are non-empty, free of whitespace,
    and literal pieces of the text. *)
Theorem tokenize_tokens (text : string) :
  (_tokenize text = [] <-> all_chars isspace text = true)
  /\ Forall (fun q => q <> "" /\ all_chars not_space q = true
                      /\ Substring q text)
            (_tokenize text).
Proof.
  rewrite tokenize_split. split; [apply split_nil|].
  apply Forall_forall. intros q I.
  pose proof (split_tokens text) as F. rewrite Forall_forall in F.
  destruct (F q I) as [N A]. repeat split; try assumption.
  now apply split_Substring.
Qed.

(* ================================================================== *)
(** * Further properties: the phrase matcher                            *)
(* ================================================================== *)

Lemma not_space_no_blank (q : string) :
  all_chars not_space q = true -> has_space q = false.
Proof.
  unfold has_space. induction q as [|c r IH]; [reflexivity|].
  cbn [all_chars]. intros H. apply andb_true_iff in H as [Hc Hr].
  cbn [contains startswith]. rewrite (IH Hr).
  destruct (" " =? c)%char eqn:E; [|reflexivity].
  apply Ascii.eqb_eq in E. subst c. unfold not_space in Hc.
  now rewrite (proj1 (proj2 space_facts)) in Hc.
Qed.

Lemma token_no_blank (s q : string) : In q (split s) -> has_space q = false.
Proof.
  intros I. pose proof (split_tokens s) as F. rewrite Forall_forall in F.
  apply not_space_no_blank. now apply F.
Qed.

(** The matches of a vocabulary without repetition (a set): the list holds
    exactly the entries of the vocabulary that match the text (a multi-word
    entry as a substring, a single word as a token), each of them once,
    every multi-word match before every single-word match, and the flag
    tells whether the list is non-empty. *)
Theorem contains_any_phrase_distinct (text : string) (phrases : list string) :
  NoDup phrases ->
  let found := snd (_contains_any_phrase text phrases) in
  NoDup found
  /\ (forall p, In p found <-> In p phrases /\ phrase_matches text p)
  /\ (forall p, In p phrases -> phrase_matches text p ->
                count_occ string_dec found p = 1%nat)
  /\ (fst (_contains_any_phrase text phrases) = true <-> found <> [])
  /\ exists multi single,
       found = (multi ++ single)%list
       /\ Forall (fun p => has_space p = true /\ Substring p text) multi
       /\ Forall (fun p => has_space p = false /\ In p (split text)) single.
Proof.
  intros D. cbv zeta.
  pose proof (contains_any_phrase_In text phrases) as M.
  assert (N : NoDup (snd (_contains_any_phrase text phrases))).
  { unfold _contains_any_phrase. cbn [snd].
    apply NoDup_app; try now apply NoDup_filter.
    intros p I1 I2. apply filter_In in I1 as [_ I1], I2 as [_ I2].
    apply andb_true_iff in I1 as [I1 _], I2 as [I2 _].
    apply negb_true_iff in I2. congruence. }
  split; [exact N|]. split; [exact M|]. split.
  - intros p I1 I2. apply NoDup_count_occ'; [exact N|].
    apply M. now split.
  - split.
    + unfold _contains_any_phrase. cbn [fst snd].
      destruct (_ ++ _)%list; cbn; split; congruence.
    + unfold _contains_any_phrase. cbn [snd].
      eexists _, _. split; [reflexivity|]. split.
      * apply Forall_forall. intros p I. apply filter_In in I as [_ I].
        apply andb_true_iff in I as [I1 I2]. split; [exact I1|].
        now apply contains_spec.
      * apply Forall_forall. intros p I. apply filter_In in I as [_ I].
        apply andb_true_iff in I as [I1 I2]. apply negb_true_iff in I1.
        split; [exact I1|].
        rewrite mem_set_of, tokenize_split in I2. now apply mem_In.
Qed.

Lemma contains_any_phrase_distinct_witness :
  let found := snd (_contains_any_phrase "i see ok i see"
                      DEFAULT_PASSIVE_ACKNOWLEDGEMENTS) in
  NoDup found /\ In "i see" found /\ In "ok" found.
Proof.
  cbv zeta.
  assert (D : NoDup DEFAULT_PASSIVE_ACKNOWLEDGEMENTS).
  { assert (E : nodup string_dec DEFAULT_PASSIVE_ACKNOWLEDGEMENTS
                = DEFAULT_PASSIVE_ACKNOWLEDGEMENTS) by (vm_compute; reflexivity).
    rewrite <- E. apply NoDup_nodup. }
  pose proof (contains_any_phrase_distinct "i see ok i see"
                DEFAULT_PASSIVE_ACKNOWLEDGEMENTS D) as (N & M & _).
  split; [exact N|]. split; apply M; (split; [apply mem_In; vm_compute; reflexivity|]).
  - left. split; [reflexivity|]. exists "", " ok i see". reflexivity.
  - right. split; [reflexivity|]. apply mem_In. vm_compute. reflexivity.
Defined.

Lemma tidy_split (c : ascii) : tidy c = true -> lowered c = true /\ plain c = true.
Proof. unfold tidy. apply andb_true_iff. Qed.

Lemma normalize_tidy (text : string) :
  all_chars tidy (_normalize_text text) = true.
Proof.
  destruct (normalize_normal text) as [E|N]; [now rewrite E|].
  now apply nf_tidy in N.
Qed.

Lemma phrase_matches_tidy (text q : string) :
  all_chars tidy text = true -> phrase_matches text q ->
  all_chars tidy q = true.
Proof.
  intros A [[_ S]|[_ I]].
  - now apply (all_chars_Substring tidy q text).
  - pose proof (all_chars_split tidy text A) as F.
    rewrite Forall_forall in F. now apply F.
Qed.

(** The handler after a call has the vocabularies it had before, and the
    result is a function of the vocabularies, the text and the flag. *)
Lemma classify_result_pure
    (self : InterruptionHandler) (w : World) (text : string) (speaking : bool) :
  result_of (classify self w text speaking)
  = classification (passive_acknowledgements self) (interrupt_commands self)
      text speaking.
Proof.
  unfold classification.
  set (h0 := mkHandler _ _ [] [] _ _). set (w0 := mkWorld _ _).
  pose proof (classify_cases self w text speaking) as C1.
  pose proof (classify_cases h0 w0 text speaking) as C2.
  cbv zeta in C1, C2. subst h0.
  cbn [interrupt_commands passive_acknowledgements] in C2.
  destruct C1 as [(N1 & R1)|[(N1 & P1 & R1 & _)|[(N1 & P1 & F1 & R1)
                 |[(N1 & P1 & F1 & A1 & R1 & _)|(N1 & P1 & F1 & A1 & R1)]]]];
  destruct C2 as [(N2 & R2)|[(N2 & P2 & R2 & _)|[(N2 & P2 & F2 & R2)
                 |[(N2 & P2 & F2 & A2 & R2 & _)|(N2 & P2 & F2 & A2 & R2)]]]];
  try congruence; rewrite ?R1, ?R2; reflexivity.
Qed.

Lemma classify_detected
    (self : InterruptionHandler) (w : World) (text : string) (speaking : bool)
    (q : string) :
  let r := result_of (classify self w text speaking) in
  (In q (detected_commands r) ->
   In q (interrupt_commands self) /\ phrase_matches (_normalize_text text) q)
  /\ (In q (detected_acknowledgements r) ->
      In q (passive_acknowledgements self)
      /\ phrase_matches (_normalize_text text) q).
Proof.
  cbv zeta.
  destruct (classify_cases self w text speaking)
    as [(N & R)|[(N & P & R & _)|[(N & P & F & R)
       |[(N & P & F & A & R & _)|(N & P & F & A & R)]]]];
    cbv zeta in R; rewrite R; cbn [result_of fst detected_commands
                                     detected_acknowledgements];
    split; try contradiction; apply contains_any_phrase_In.
Qed.

(** A vocabulary entry with an upper-case letter, an apostrophe or any other
    character that normalization removes or rewrites is dead: whatever the
    text and the flag, [classify] never reports it, neither as a command nor
    as an acknowledgement. *)
Theorem untidy_phrase_never_detected
    (self : InterruptionHandler) (w : World) (text : string) (speaking : bool)
    (q : string) :
  all_chars tidy q = false ->
  let r := result_of (classify self w text speaking) in
  ~ In q (detected_commands r) /\ ~ In q (detected_acknowledgements r).
Proof.
  intros U r. subst r.
  destruct (classify_detected self w text speaking q) as [C A]. cbv zeta in C, A.
  split; intros I; [apply C in I|apply A in I]; destruct I as [_ M];
    apply (phrase_matches_tidy _ q (normalize_tidy text)) in M; congruence.
Qed.

Lemma untidy_phrase_never_detected_witness :
  In "that's wrong" DEFAULT_INTERRUPT_COMMANDS
  /\ ~ In "that's wrong"
         (detected_commands
            (result_of (classify InterruptionHandler_init ms_clock
                          "No, that's wrong!" true))).
Proof.
  split; [vm_compute; tauto|].
  apply (untidy_phrase_never_detected InterruptionHandler_init ms_clock
           "No, that's wrong!" true "that's wrong").
  vm_compute. reflexivity.
Defined.

(* ================================================================== *)
(** * Further properties: the acknowledgement-only check                *)
(* ================================================================== *)

Lemma has_space_nonempty (p : string) : has_space p = true -> is_empty p = false.
Proof. now destruct p. Qed.

Lemma replace_from_absent (p new s : string) :
  contains p s = false -> replace_from p new 0 s = s.
Proof.
  induction s as [|c r IH]; [reflexivity|].
  cbn [contains replace_from].
  destruct (startswith (String c r) p); [discriminate|].
  intros H. now rewrite (IH H).
Qed.

Lemma replace_absent (s p new : string) :
  has_space p = true -> contains p s = false -> replace s p new = s.
Proof.
  intros H C. unfold replace. rewrite (has_space_nonempty p H).
  now apply replace_from_absent.
Qed.

Lemma remove_phrases_absent (text : string) (ms : list string) :
  (forall p, In p ms -> has_space p = true /\ contains p text = false) ->
  remove_phrases text ms = text.
Proof.
  unfold remove_phrases. induction ms as [|p ms IH]; intros H; [reflexivity|].
  cbn [fold_left]. destruct (H p (or_introl eq_refl)) as [Hs Hc].
  rewrite (replace_absent text p " " Hs Hc). apply IH.
  intros q I. apply H. now right.
Qed.

Lemma only_acknowledgements_by_tokens_aux (text : string) (acks : list string) :
  text <> "" ->
  (forall p, In p acks -> has_space p = true -> contains p text = false) ->
  _is_only_acknowledgements text acks = true ->
  Forall (fun t => In t acks) (split text).
Proof.
  intros N A H. apply is_only_acknowledgements_spec in H as [_ H].
  rewrite remove_phrases_absent in H.
  2:{ intros p I. apply filter_In in I as [I Hs]. split; [exact Hs|now apply A]. }
  rewrite Forall_forall in *. intros t I. now apply H.
Qed.

(** When no multi-word acknowledgement occurs in a non-empty text, the check
    is a test of the tokens: it holds exactly when every token of the text
    is in the vocabulary. *)
Theorem only_acknowledgements_by_tokens (text : string) (acks : list string) :
  text <> "" ->
  (forall p, In p acks -> has_space p = true -> contains p text = false) ->
  (_is_only_acknowledgements text acks = true
   <-> Forall (fun t => In t acks) (split text)).
Proof.
  intros N A. rewrite is_only_acknowledgements_spec.
  unfold AcknowledgementOnlyCheck.
  rewrite remove_phrases_absent.
  2:{ intros p I. apply filter_In in I as [I Hs]. split; [exact Hs|now apply A]. }
  rewrite !Forall_forall. split.
  - intros [_ H] t I. now apply H.
  - intros H. split; [exact N|]. intros t I. split; [now apply H|].
    now apply (token_no_blank text).
Qed.

Lemma only_acknowledgements_by_tokens_witness :
  _is_only_acknowledgements "yeah ok hmm" DEFAULT_PASSIVE_ACKNOWLEDGEMENTS = true
  /\ _is_only_acknowledgements "yeah but" DEFAULT_PASSIVE_ACKNOWLEDGEMENTS
     <> true.
Proof.
  assert (A : forall text,
             forallb (fun p => negb (has_space p) || negb (contains p text))
                     DEFAULT_PASSIVE_ACKNOWLEDGEMENTS = true ->
             forall p, In p DEFAULT_PASSIVE_ACKNOWLEDGEMENTS ->
                       has_space p = true -> contains p text = false).
  { intros text F p I Hs. rewrite forallb_forall in F. specialize (F p I).
    rewrite Hs in F. cbn in F. now apply negb_true_iff in F. }
  split.
  - apply (only_acknowledgements_by_tokens "yeah ok hmm");
      [discriminate|apply A; vm_compute; reflexivity|].
    vm_compute. repeat constructor; tauto.
  - intros H.
    apply (only_acknowledgements_by_tokens "yeah but") in H;
      [|discriminate|apply A; vm_compute; reflexivity].
    rewrite Forall_forall in H.
    assert (I : In "but" DEFAULT_PASSIVE_ACKNOWLEDGEMENTS)
      by (apply H; vm_compute; tauto).
    vm_compute in I. repeat (destruct I as [I|I]; [discriminate|]). exact I.
Defined.

Lemma nf_split_nonempty (n : string) : nf false n = true -> split n <> [].
Proof.
  intros N. destruct n as [|c r]; [discriminate|].
  apply nf_next_is_word in N. cbn [next_is_word] in N.
  assert (S : isspace c = false) by (char_case c; congruence).
  destruct (split_head c r S) as (w & ws & b & E & _). now rewrite E.
Qed.

(** An IGNORE given for acknowledgements always names one: when the
    normalized text is not empty and [classify] with the agent speaking
    returns IGNORE, the list of detected acknowledgements is not empty (and
    the list of detected commands is). *)
Theorem ignore_names_an_acknowledgement
    (self : InterruptionHandler) (w : World) (text : string) :
  _normalize_text text <> "" ->
  let r := result_of (classify self w text true) in
  decision r = IGNORE ->
  detected_acknowledgements r <> [] /\ detected_commands r = [].
Proof.
  intros E r D. subst r.
  destruct (classify_cases self w text true)
    as [(N & R)|[(N & P & R & _)|[(N & P & F & R)
       |[(N & P & F & A & R & _)|(N & P & F & A & R)]]]];
    cbv zeta in *; try congruence;
    try (rewrite R in D; cbn in D; discriminate).
  rewrite R. cbn [detected_acknowledgements detected_commands].
  split; [|reflexivity].
  set (n := _normalize_text text) in *.
  set (acks := passive_acknowledgements self) in *.
  assert (M : vocabulary_match n acks).
  { destruct (existsb (fun p => has_space p && contains p n) acks) eqn:X.
    - apply existsb_exists in X as (p & I & H).
      apply andb_true_iff in H as [H1 H2].
      exists p. split; [exact I|]. left. split; [exact H1|].
      now apply contains_spec.
    - assert (Ab : forall p, In p acks -> has_space p = true ->
                             contains p n = false).
      { intros p I Hs. destruct (contains p n) eqn:C; [|reflexivity].
        assert (X' : existsb (fun p => has_space p && contains p n) acks = true).
        { apply existsb_exists. exists p. now rewrite Hs, C. }
        congruence. }
      apply (only_acknowledgements_by_tokens_aux n acks E Ab) in A.
      destruct (normalize_normal text) as [Z|Nf]; [contradiction|].
      fold n in Nf. apply nf_split_nonempty in Nf.
      destruct (split n) as [|t ts] eqn:Sp; [congruence|].
      inversion A; subst.
      exists t. split; [assumption|]. right.
      split; [apply (token_no_blank n); rewrite Sp; now left|].
      rewrite Sp. now left. }
  apply contains_any_phrase_found in M.
  unfold _contains_any_phrase in *. cbn [fst snd] in *.
  intros Z. rewrite Z in M. discriminate.
Qed.

Lemma ignore_names_an_acknowledgement_witness :
  detected_acknowledgements
    (result_of (classify InterruptionHandler_init ms_clock "Mm hmm... right." true))
  <> [].
Proof.
  apply (ignore_names_an_acknowledgement InterruptionHandler_init ms_clock
           "Mm hmm... right.").
  - vm_compute. discriminate.
  - vm_compute. reflexivity.
Defined.

Lemma all_chars_replace_from (P : ascii -> bool) (old new : string) :
  all_chars P new = true ->
  forall (s : string) (k : nat),
    all_chars P s = true -> all_chars P (replace_from old new k s) = true.
Proof.
  intros Hn. induction s as [|c r IH]; intros k H; [reflexivity|].
  cbn [all_chars] in H. apply andb_true_iff in H as [Hc Hr].
  cbn [replace_from]. destruct k as [|k]; [|now apply IH].
  destruct (startswith (String c r) old).
  - rewrite all_chars_app, Hn. now apply IH.
  - cbn [all_chars]. rewrite Hc. now apply IH.
Qed.

Lemma all_chars_intersperse (P : ascii -> bool) (new s : string) :
  all_chars P new = true -> all_chars P s = true ->
  all_chars P (intersperse new s) = true.
Proof.
  intros Hn. induction s as [|c r IH]; intros H; [exact Hn|].
  cbn [all_chars] in H. apply andb_true_iff in H as [Hc Hr].
  cbn [intersperse]. rewrite all_chars_app, Hn. cbn [all_chars andb].
  rewrite Hc. now apply IH.
Qed.

Lemma all_chars_remove_phrases (P : ascii -> bool) (ms : list string) :
  P " "%char = true ->
  forall text, all_chars P text = true ->
               all_chars P (remove_phrases text ms) = true.
Proof.
  intros Hb. unfold remove_phrases.
  induction ms as [|p ms IH]; intros text H; [exact H|].
  cbn [fold_left]. apply IH. unfold replace.
  assert (B : all_chars P " " = true) by (cbn; now rewrite Hb).
  destruct (is_empty p);
    [now apply all_chars_intersperse|now apply all_chars_replace_from].
Qed.

(** Called on a text that is not normalized, the check can hold without any
    acknowledgement: a non-empty text of whitespace only is judged
    acknowledgement-only, whatever the vocabulary (while the empty text is
    not). *)
Theorem blank_text_is_acknowledgement_only (text : string) (acks : list string) :
  text <> "" -> all_chars isspace text = true ->
  _is_only_acknowledgements text acks = true
  /\ _is_only_acknowledgements "" acks = false.
Proof.
  intros N B. split; [|reflexivity].
  apply is_only_acknowledgements_spec. split; [exact N|].
  assert (E : split (remove_phrases text (filter has_space acks)) = []).
  { apply split_nil. apply all_chars_remove_phrases; [apply space_facts|exact B]. }
  rewrite E. constructor.
Qed.

Lemma blank_text_is_acknowledgement_only_witness :
  _is_only_acknowledgements "   " [] = true.
Proof.
  apply (blank_text_is_acknowledgement_only "   " []);
    [discriminate|reflexivity].
Defined.

(* ================================================================== *)
(** * Further properties: the satisfaction tracker                      *)
(* ================================================================== *)

Lemma token_live (text x : string) :
  In x (split (_normalize_text text)) -> live x = true.
Proof.
  intros I. unfold live.
  rewrite (token_no_blank _ _ I). cbn [negb andb].
  pose proof (all_chars_split tidy _ (normalize_tidy text)) as F.
  rewrite Forall_forall in F. now apply F.
Qed.

Lemma set_inter_live (text : string) (vocabulary : list string) :
  set_inter (set_of (split (_normalize_text text))) vocabulary
  = set_inter (set_of (split (_normalize_text text))) (filter live vocabulary).
Proof.
  unfold set_inter, set_of. apply filter_ext_in. intros x I.
  apply nodup_In, token_live in I.
  apply eq_true_iff_eq. rewrite !mem_In, filter_In. tauto.
Qed.

(** Indicators that cannot be a token of a normalized text are dead: an
    entry with a blank ("thank you"), an apostrophe ("don't understand") or
    an upper-case letter never moves the score. *)
Theorem update_ignores_dead_indicators
    (s : SatisfactionState) (text : string) (pos neg : list string) :
  Satisfaction.update s text pos neg
  = Satisfaction.update s text (filter live pos) (filter live neg).
Proof.
  unfold Satisfaction.update.
  now rewrite <- !set_inter_live.
Qed.

(** On a state with the declared deltas and a score within bounds, [update]
    moves the score in the direction of the signal and records the raw text:
    a negative indicator lowers it (or leaves it at -1) even when positive
    indicators are present too, and positive indicators alone raise it (or
    leave it at 1). *)
Theorem update_follows_the_signal
    (s : SatisfactionState) (text : string) (pos neg : list string) :
  satisfaction_ok s ->
  let s' := Satisfaction.update s text pos neg in
  (indicator_found text neg ->
   (score s' <= score s)%Q /\ ((- (1) < score s)%Q -> (score s' < score s)%Q)
   /\ last_signal s' = "negative" /\ last_text s' = text)
  /\ (indicator_found text pos -> ~ indicator_found text neg ->
      (score s <= score s')%Q /\ ((score s < 1)%Q -> (score s < score s')%Q)
      /\ last_signal s' = "positive" /\ last_text s' = text).
Proof.
  intros (P & N & D & L & U) s'. subst s'.
  destruct (update_cases s text pos neg) as (U1 & U2 & _). cbv zeta in *.
  split.
  - intros H. rewrite (U2 H). cbn [score last_signal last_text]. rewrite N.
    destruct (py_max_cases (- (1)) (score s - (20 # 100))) as [[I ->]|[I ->]];
      repeat split; try lra.
  - intros H1 H2. rewrite (U1 (conj H1 H2)).
    cbn [score last_signal last_text]. rewrite P.
    destruct (py_min_cases 1 (score s + (15 # 100))) as [[I ->]|[I ->]];
      repeat split; try lra.
Qed.

Lemma update_follows_the_signal_witness :
  last_signal (Satisfaction.update SatisfactionState_init "Great, but wrong."
                 DEFAULT_POSITIVE_INDICATORS DEFAULT_NEGATIVE_INDICATORS)
  = "negative".
Proof.
  destruct (update_follows_the_signal SatisfactionState_init "Great, but wrong."
              DEFAULT_POSITIVE_INDICATORS DEFAULT_NEGATIVE_INDICATORS init_ok)
    as [H _].
  apply H. exists "wrong". split; vm_compute; tauto.
Defined.

(** One call of [decay] on a state with the declared rate. *)
Lemma decay_cases (s : SatisfactionState) :
  DECAY_RATE s = 5 # 100 ->
  let x := score s in
  let y := score (Satisfaction.decay s) in
  DECAY_RATE (Satisfaction.decay s) = 5 # 100
  /\ (((- (1 # 100) <= x <= 1 # 100)%Q /\ Satisfaction.decay s = s)
      \/ ((1 # 100 < x)%Q
          /\ ((x <= 5 # 100)%Q /\ y = 0%Q \/ (5 # 100 < x)%Q /\ y = (x - (5 # 100))%Q))
      \/ ((x < - (1 # 100))%Q
          /\ ((- (5 # 100) <= x)%Q /\ y = 0%Q
              \/ (x < - (5 # 100))%Q /\ y = (x + (5 # 100))%Q))).
Proof.
  intros D. cbv zeta. unfold Satisfaction.decay.
  destruct (Qltb (1 # 100) (py_abs (score s))) eqn:T.
  - apply Qltb_lt in T. destruct (Qltb 0 (score s)) eqn:Z.
    + apply Qltb_lt in Z. cbn [DECAY_RATE score Satisfaction.set_score].
      split; [exact D|]. right. left. rewrite D.
      destruct (py_abs_cases (score s)) as [[I E]|[I E]]; rewrite E in T;
        [lra|].
      split; [exact T|].
      destruct (py_max_cases 0 (score s - (5 # 100))) as [[J ->]|[J ->]];
        [right|left]; split; try reflexivity; lra.
    + apply Qltb_ge in Z. cbn [DECAY_RATE score Satisfaction.set_score].
      split; [exact D|]. right. right. rewrite D.
      destruct (py_abs_cases (score s)) as [[I E]|[I E]]; rewrite E in T;
        [|lra].
      split; [lra|].
      destruct (py_min_cases 0 (score s + (5 # 100))) as [[J ->]|[J ->]];
        [right|left]; split; try reflexivity; lra.
  - apply Qltb_ge in T. split; [exact D|]. left. split; [|reflexivity].
    destruct (py_abs_cases (score s)) as [[I E]|[I E]]; rewrite E in T; lra.
Qed.

Lemma decay_band_step (s : SatisfactionState) (b : Q) :
  DECAY_RATE s = 5 # 100 ->
  within_band_or b (score s) ->
  within_band_or (b - (5 # 100)) (score (Satisfaction.decay s)).
Proof.
  intros D [U L]. unfold within_band_or.
  destruct (decay_cases s D) as [_ [[B ->]|[[P [[Q ->]|[Q ->]]]|[P [[Q ->]|[Q ->]]]]]];
    split; lra.
Qed.

Lemma decay_iter_band (s : SatisfactionState) (n : nat) :
  DECAY_RATE s = 5 # 100 ->
  within_band_or 1 (score s) ->
  DECAY_RATE (Nat.iter n Satisfaction.decay s) = 5 # 100
  /\ within_band_or (decay_bound n) (score (Nat.iter n Satisfaction.decay s)).
Proof.
  intros D B. induction n as [|n [IH1 IH2]]; [now split|].
  rewrite Nat.iter_succ. cbn [decay_bound]. split.
  - now apply decay_cases.
  - now apply decay_band_step.
Qed.

Lemma decay_iter_sign (s : SatisfactionState) (n : nat) :
  DECAY_RATE s = 5 # 100 ->
  let s' := Nat.iter n Satisfaction.decay s in
  DECAY_RATE s' = 5 # 100
  /\ ((0 <= score s)%Q -> (0 <= score s' <= score s)%Q)
  /\ ((score s <= 0)%Q -> (score s <= score s' <= 0)%Q).
Proof.
  intros D. cbv zeta. induction n as [|n (IH1 & IH2 & IH3)].
  - cbn. repeat split; try assumption; lra.
  - rewrite Nat.iter_succ.
    destruct (decay_cases _ IH1)
      as [D' [[B ->]|[[P [[Q ->]|[Q ->]]]|[P [[Q ->]|[Q ->]]]]]];
      (split; [first [exact D'|exact IH1]|]); split; intros H;
      try specialize (IH2 H); try specialize (IH3 H); lra.
Qed.

Lemma iter_fixed {A : Type} (f : A -> A) (x : A) (n : nat) :
  f x = x -> Nat.iter n f x = x.
Proof.
  intros H. induction n as [|n IH]; [reflexivity|].
  rewrite Nat.iter_succ. now rewrite IH.
Qed.

(** [decay] never overshoots zero and never moves a score away from it, and
    it settles: from a state with the declared deltas and a score within
    [-1, 1], after twenty calls or more the score is within 0.01 of zero and
    further calls change nothing. *)
Theorem decay_settles (s : SatisfactionState) (n : nat) :
  satisfaction_ok s ->
  let s' := Nat.iter n Satisfaction.decay s in
  ((0 <= score s)%Q -> (0 <= score s' <= score s)%Q)
  /\ ((score s <= 0)%Q -> (score s <= score s' <= 0)%Q)
  /\ ((20 <= n)%nat ->
      (- (1 # 100) <= score s' <= 1 # 100)%Q /\ Satisfaction.decay s' = s').
Proof.
  intros (P & N & D & L & U). cbv zeta.
  destruct (decay_iter_sign s n D) as (_ & S1 & S2).
  split; [exact S1|split; [exact S2|]].
  intros G.
  assert (B : within_band_or 1 (score s)) by (unfold within_band_or; lra).
  destruct (decay_iter_band s 20 D B) as [D20 B20].
  set (s20 := Nat.iter 20 Satisfaction.decay s) in *.
  assert (R : (- (1 # 100) <= score s20 <= 1 # 100)%Q).
  { unfold within_band_or in B20. cbn [decay_bound] in B20. lra. }
  assert (F : Satisfaction.decay s20 = s20).
  { destruct (decay_cases s20 D20) as [_ [[_ E]|[[Q _]|[Q _]]]];
      [exact E|lra|lra]. }
  replace n with ((n - 20) + 20)%nat by lia.
  rewrite Nat.iter_add. fold s20. rewrite (iter_fixed _ _ _ F).
  now split.
Qed.

Lemma decay_settles_witness :
  Satisfaction.decay
    (Nat.iter 20 Satisfaction.decay (satisfaction_with 1 "positive" "great"))
  = Nat.iter 20 Satisfaction.decay (satisfaction_with 1 "positive" "great").
Proof.
  assert (K : satisfaction_ok (satisfaction_with 1 "positive" "great"))
    by (repeat split; cbn; lra).
  destruct (decay_settles (satisfaction_with 1 "positive" "great") 20 K)
    as (_ & _ & H).
  apply H. lia.
Defined.

(* ================================================================== *)
(** * Further properties: the engagement tracker                        *)
(* ================================================================== *)

Lemma prune_In (now window x : Q) (ts : list Q) :
  In x (prune now window ts) <-> In x ts /\ (now - window < x)%Q.
Proof. unfold prune. now rewrite filter_In, Qltb_lt. Qed.

Lemma prune_keep (now window : Q) (ts : list Q) :
  Forall (fun x => (now - window < x)%Q) ts -> prune now window ts = ts.
Proof.
  unfold prune. induction 1 as [|x l H _ IH]; [reflexivity|].
  cbn [filter]. apply Qltb_lt in H. now rewrite H, IH.
Qed.

Lemma prune_app (now window : Q) (a b : list Q) :
  prune now window (a ++ b) = (prune now window a ++ prune now window b)%list.
Proof. apply filter_app. Qed.

Lemma prune_length (now window : Q) (ts : list Q) :
  (List.length (prune now window ts) <= List.length ts)%nat.
Proof. apply filter_length_le. Qed.

Lemma prune_prune (t1 t2 window : Q) (ts : list Q) :
  (t1 <= t2)%Q ->
  prune t2 window (prune t1 window ts) = prune t2 window ts.
Proof.
  intros L. unfold prune. induction ts as [|x l IH]; [reflexivity|].
  cbn [filter]. destruct (Qltb (t1 - window) x) eqn:A.
  - cbn [filter]. now rewrite IH.
  - rewrite IH. destruct (Qltb (t2 - window) x) eqn:B; [|reflexivity].
    apply Qltb_lt in B. apply Qltb_ge in A. lra.
Qed.

(** What a read of the engagement tracker returns and leaves behind: with
    the clock reading [now], [get_count] returns the number of recorded
    timestamps later than [now - window], the state keeps exactly those (in
    their order), and [get_level] on the same state and clock is HIGH from
    three of them on, MEDIUM for one or two, LOW for none. *)
Theorem engagement_read (e : EngagementState) (w : World) :
  let now := clock w (reads w) in
  let live_ones := prune now (window_seconds e) (acknowledgement_timestamps e) in
  let count := fst (fst (Engagement.get_count e w)) in
  let level := fst (fst (Engagement.get_level e w)) in
  count = List.length live_ones
  /\ (count <= List.length (acknowledgement_timestamps e))%nat
  /\ (forall x, In x live_ones
                <-> In x (acknowledgement_timestamps e)
                    /\ (now - window_seconds e < x)%Q)
  /\ snd (fst (Engagement.get_count e w))
     = mkEngagement live_ones (window_seconds e)
  /\ snd (fst (Engagement.get_level e w))
     = mkEngagement live_ones (window_seconds e)
  /\ (level = HIGH <-> (3 <= count)%nat)
  /\ (level = MEDIUM <-> (1 <= count <= 2)%nat)
  /\ (level = LOW <-> count = 0%nat).
Proof.
  cbv zeta. unfold Engagement.get_count, Engagement.get_level,
    Engagement._cleanup_old, time_time.
  cbn [fst snd acknowledgement_timestamps window_seconds].
  fold (prune (clock w (reads w)) (window_seconds e)
          (acknowledgement_timestamps e)).
  set (l := prune _ _ _).
  split; [reflexivity|]. split; [apply prune_length|].
  split; [intros x; apply prune_In|]. split; [reflexivity|].
  split; [reflexivity|].
  destruct (List.length l) as [|[|[|n]]]; cbn;
    repeat split; intros; try discriminate; try lia.
Qed.

(** With a clock that does not run backwards during the call, the net
    effect of an ignored acknowledgement on the tracker is one pruning: the
    first reading is appended and the timestamps not later than the last
    reading minus the window are dropped. *)
Theorem acknowledgement_prunes_once
    (self : InterruptionHandler) (w : World) (text : string) :
  let e := engagement_state self in
  let t := fun k : nat => clock w (reads w + k) in
  acknowledgement_utterance (passive_acknowledgements self)
    (interrupt_commands self) text ->
  (t 1%nat <= t 2%nat)%Q -> (t 2%nat <= t 3%nat)%Q ->
  engagement_state (handler_of (classify self w text true))
  = mkEngagement
      (prune (t 3%nat) (window_seconds e)
         (acknowledgement_timestamps e ++ [t 0%nat]))
      (window_seconds e).
Proof.
  intros e t (E & M & A) L1 L2.
  assert (F : fst (_contains_any_phrase (_normalize_text text)
                     (interrupt_commands self)) = false).
  { destruct (fst _) eqn:F; [|reflexivity].
    now apply contains_any_phrase_found in F. }
  apply is_only_acknowledgements_spec in A.
  rewrite (classify_acknowledgement self w text E F A).
  cbn [handler_of fst snd with_engagement engagement_state].
  fold e. fold (t 0%nat) (t 1%nat) (t 2%nat) (t 3%nat).
  now rewrite (prune_prune _ _ _ _ L1), (prune_prune _ _ _ _ L2).
Qed.

Lemma acknowledgement_prunes_once_witness :
  acknowledgement_timestamps
    (engagement_state
       (handler_of
          (classify
             (with_engagement InterruptionHandler_init (mkEngagement [1; 7] 8))
             (mkWorld (fun k => inject_Z (Z.of_nat k) + 9) 0) "uh-huh" true)))
  = [7; 0 + 9].
Proof.
  rewrite (acknowledgement_prunes_once
             (with_engagement InterruptionHandler_init (mkEngagement [1; 7] 8))
             (mkWorld (fun k => inject_Z (Z.of_nat k) + 9) 0) "uh-huh").
  - vm_compute. reflexivity.
  - split; [vm_compute; discriminate|]. split.
    + intros M. apply contains_any_phrase_found in M. vm_compute in M.
      discriminate.
    + apply is_only_acknowledgements_spec. vm_compute. reflexivity.
  - vm_compute. discriminate.
  - vm_compute. discriminate.
Defined.

Lemma ack_step (clk : nat -> Q) (r0 k : nat) (W : Q) (acks cmds : list string)
    (m : nat) (h : InterruptionHandler) (w : World) (text : string) :
  (m < k)%nat ->
  ack_invariant clk r0 k W acks cmds m h w ->
  acknowledgement_utterance acks cmds text ->
  recorded_within clk r0 k W (clk (r0 + 4 * m)%nat) ->
  decision (result_of (classify h w text true)) = IGNORE
  /\ ack_invariant clk r0 k W acks cmds (S m)
       (handler_of (classify h w text true))
       (world_of (classify h w text true)).
Proof.
  intros Lt (Ha & Hc & HW & Hk & Hr & older & news & Hts & Hlen & Hall)
         (E & M & A) R0.
  subst acks cmds.
  assert (F : fst (_contains_any_phrase (_normalize_text text)
                     (interrupt_commands h)) = false).
  { destruct (fst _) eqn:F; [|reflexivity].
    now apply contains_any_phrase_found in F. }
  apply is_only_acknowledgements_spec in A.
  rewrite (classify_acknowledgement h w text E F A).
  cbn [result_of handler_of world_of fst snd decision].
  split; [reflexivity|].
  unfold ack_invariant.
  cbn [passive_acknowledgements interrupt_commands engagement_state
       with_engagement window_seconds acknowledgement_timestamps clock reads].
  repeat (split; [first [reflexivity | assumption | lia]|]).
  rewrite Hts, HW, Hk, Hr, <- app_assoc.
  assert (Keep : forall i, (i <= 3)%nat ->
                 prune (clk (r0 + 4 * m + i)%nat) W (news ++ [clk (r0 + 4 * m + 0)%nat])
                 = (news ++ [clk (r0 + 4 * m + 0)%nat])%list).
  { intros i Li. apply prune_keep. apply Forall_app. split.
    - apply Forall_forall. intros x I. rewrite Forall_forall in Hall.
      rewrite <- Nat.add_assoc. apply (Hall x I). lia.
    - constructor; [|constructor]. rewrite Nat.add_0_r, <- Nat.add_assoc.
      apply R0. lia. }
  do 3 (rewrite (prune_app _ _ _ (news ++ _)), Keep by lia).
  eexists; eexists. split; [reflexivity|]. split.
  - rewrite length_app. cbn. lia.
  - apply Forall_app. split; [exact Hall|].
    constructor; [|constructor]. now rewrite Nat.add_0_r.
Qed.

Lemma ack_calls (clk : nat -> Q) (r0 k : nat) (W : Q) (acks cmds : list string) :
  (forall i j, (i <= 4 * k)%nat -> (j <= 4 * k)%nat ->
               (clk (r0 + j)%nat - W < clk (r0 + i)%nat)%Q) ->
  forall (texts : list string) (m : nat) (h : InterruptionHandler) (w : World),
    (m + List.length texts = k)%nat ->
    ack_invariant clk r0 k W acks cmds m h w ->
    Forall (acknowledgement_utterance acks cmds) texts ->
    let res := classify_calls h w (map (fun t => (t, true)) texts) in
    Forall (fun r => decision r = IGNORE) (fst (fst res))
    /\ ack_invariant clk r0 k W acks cmds k (snd (fst res)) (snd res).
Proof.
  intros C. induction texts as [|text rest IH]; intros m h w Len Inv F.
  - cbn [map classify_calls fst snd List.length] in *.
    assert (m = k) by lia. subst m. split; [constructor|exact Inv].
  - cbn [map classify_calls]. cbn [List.length] in Len.
    inversion F as [|x l Ft Fr]. subst x l.
    assert (R0 : recorded_within clk r0 k W (clk (r0 + 4 * m)%nat)).
    { intros j Lj. apply C; lia. }
    destruct (ack_step clk r0 k W acks cmds m h w text) as [D Inv'];
      try assumption; [lia|].
    destruct (classify h w text true) as [[r h1] w1].
    cbn [result_of handler_of world_of fst snd] in D, Inv'.
    specialize (IH (S m) h1 w1). cbv zeta in IH.
    destruct IH as [I1 I2]; try assumption; [lia|].
    destruct (classify_calls h1 w1 _) as [[rs h2] w2].
    cbn [fst snd] in *. split; [now constructor|assumption].
Qed.

(** Acknowledgements given within one window all count: after [k]
    utterances that [classify] ignores as acknowledgements, with all clock
    readings of the calls and of the read that follows less than a window
    apart, every decision was IGNORE, the engagement count is at least [k],
    and the level is HIGH as soon as [k] is three. *)
Theorem acknowledgements_raise_engagement
    (self : InterruptionHandler) (w : World) (texts : list string) :
  let k := List.length texts in
  let W := window_seconds (engagement_state self) in
  Forall (acknowledgement_utterance (passive_acknowledgements self)
            (interrupt_commands self)) texts ->
  (forall i j, (i <= 4 * k)%nat -> (j <= 4 * k)%nat ->
               (clock w (reads w + j)%nat - W < clock w (reads w + i)%nat)%Q) ->
  let res := classify_calls self w (map (fun t => (t, true)) texts) in
  let h' := snd (fst res) in
  let w' := snd res in
  Forall (fun r => decision r = IGNORE) (fst (fst res))
  /\ (k <= fst (fst (Engagement.get_count (engagement_state h') w')))%nat
  /\ ((3 <= k)%nat -> fst (fst (get_engagement_level h' w')) = HIGH).
Proof.
  intros k W F C res h' w'.
  assert (Inv0 : ack_invariant (clock w) (reads w) k W
                   (passive_acknowledgements self) (interrupt_commands self)
                   0 self w).
  { repeat (split; [first [reflexivity | lia]|]).
    exists (acknowledgement_timestamps (engagement_state self)), [].
    rewrite app_nil_r. repeat split. constructor. }
  destruct (ack_calls (clock w) (reads w) k W _ _ C texts 0 self w
              eq_refl Inv0 F) as [D Inv].
  fold res in D, Inv. fold h' w' in Inv. split; [exact D|].
  destruct Inv as (_ & _ & HW & Hk & Hr & older & news & Hts & Hlen & Hall).
  assert (Cnt : fst (fst (Engagement.get_count (engagement_state h') w'))
                = List.length
                    (prune (clock w' (reads w')) W
                       (acknowledgement_timestamps (engagement_state h')))).
  { unfold Engagement.get_count, Engagement._cleanup_old, time_time.
    cbn [fst snd acknowledgement_timestamps]. now rewrite HW. }
  assert (Ge : (k <= List.length
                       (prune (clock w' (reads w')) W
                          (acknowledgement_timestamps (engagement_state h'))))%nat).
  { rewrite Hts, prune_app, length_app, Hk, Hr.
    rewrite (prune_keep _ _ news).
    - lia.
    - apply Forall_forall. intros x I. rewrite Forall_forall in Hall.
      apply (Hall x I). lia. }
  split; [now rewrite Cnt|].
  intros K3. unfold get_engagement_level, Engagement.get_level,
    Engagement._cleanup_old, time_time.
  cbn [fst snd acknowledgement_timestamps]. rewrite HW.
  fold (prune (clock w' (reads w')) W
          (acknowledgement_timestamps (engagement_state h'))).
  assert (L : Nat.leb 3 (List.length
                           (prune (clock w' (reads w')) W
                              (acknowledgement_timestamps (engagement_state h'))))
              = true) by (apply Nat.leb_le; lia).
  now rewrite L.
Qed.

Lemma acknowledgements_raise_engagement_witness :
  fst (fst (get_engagement_level
              (snd (fst (classify_calls InterruptionHandler_init ms_clock
                           [("yeah", true); ("ok", true); ("Mm-hmm!", true)])))
              (snd (classify_calls InterruptionHandler_init ms_clock
                      [("yeah", true); ("ok", true); ("Mm-hmm!", true)]))))
  = HIGH.
Proof.
  assert (U : forall text,
            _normalize_text text <> "" ->
            fst (_contains_any_phrase (_normalize_text text)
                   DEFAULT_INTERRUPT_COMMANDS) = false ->
            _is_only_acknowledgements (_normalize_text text)
              DEFAULT_PASSIVE_ACKNOWLEDGEMENTS = true ->
            acknowledgement_utterance DEFAULT_PASSIVE_ACKNOWLEDGEMENTS
              DEFAULT_INTERRUPT_COMMANDS text).
  { intros text E F A. split; [exact E|]. split.
    - intros M. apply contains_any_phrase_found in M. congruence.
    - now apply is_only_acknowledgements_spec. }
  apply (acknowledgements_raise_engagement InterruptionHandler_init ms_clock
           ["yeah"; "ok"; "Mm-hmm!"]).
  - repeat constructor; apply U; vm_compute; (reflexivity || discriminate).
  - intros i j Li Lj. cbn in Li, Lj |- *.
    unfold Qlt, Qminus, Qplus, Qopp. cbn. lia.
  - cbn. lia.
Defined.

(* ================================================================== *)
(** * Further properties: sequences of calls and the convenience methods *)
(* ================================================================== *)

Lemma update_empty (s : SatisfactionState) (text : string) (pos neg : list string) :
  _normalize_text text = "" -> Satisfaction.update s text pos neg = s.
Proof. intros E. unfold Satisfaction.update. now rewrite E. Qed.

Lemma classify_satisfaction
    (self : InterruptionHandler) (w : World) (text : string) (speaking : bool) :
  satisfaction_state (handler_of (classify self w text speaking))
  = (if speaking then satisfaction_state self
     else Satisfaction.update (satisfaction_state self) text
            (positive_indicators self) (negative_indicators self))
  /\ same_vocabularies self (handler_of (classify self w text speaking)).
Proof.
  destruct (classify_cases self w text speaking)
    as [(N & R)|[(N & P & R & Hh & _)|[(N & P & F & R)
       |[(N & P & F & A & R & (e & Hh))|(N & P & F & A & R)]]]];
    cbv zeta in *; unfold handler_of in *;
    try rewrite R; try rewrite Hh; subst; cbn [fst snd]; unfold same_vocabularies;
    destruct self; cbn; try (now repeat split).
  cbn in N. rewrite (update_empty _ _ _ _ N). now destruct speaking.
Qed.

(** The satisfaction tracker hears exactly the utterances made while the
    agent is silent: after any sequence of [classify] calls its state is the
    one obtained by running [update] on the texts of the silent calls, in
    order; the vocabularies are untouched, and a score that started within
    bounds (with the declared deltas) is still within [-1, 1]. *)
Theorem satisfaction_hears_silent_calls
    (self : InterruptionHandler) (w : World) (calls : list (string * bool)) :
  let h' := snd (fst (classify_calls self w calls)) in
  satisfaction_state h'
  = satisfaction_calls (heard_while_silent self calls) (satisfaction_state self)
  /\ same_vocabularies self h'
  /\ (satisfaction_ok (satisfaction_state self) ->
      (- (1) <= get_satisfaction_score h' <= 1)%Q).
Proof.
  cbv zeta.
  assert (G : satisfaction_state (snd (fst (classify_calls self w calls)))
              = satisfaction_calls (heard_while_silent self calls)
                  (satisfaction_state self)
              /\ same_vocabularies self (snd (fst (classify_calls self w calls)))).
  { revert self w. induction calls as [|[text sp] rest IH]; intros self w.
    - cbn. now repeat split.
    - cbn [classify_calls].
      destruct (classify_satisfaction self w text sp) as [S V].
      destruct (classify self w text sp) as [[r h1] w1].
      cbn [handler_of fst snd] in S, V.
      destruct (IH h1 w1) as [S' V'].
      destruct (classify_calls h1 w1 rest) as [[rs h2] w2].
      cbn [fst snd] in *.
      destruct V as (V1 & V2 & V3 & V4). destruct V' as (V1' & V2' & V3' & V4').
      split; [|unfold same_vocabularies; repeat split; congruence].
      rewrite S', S. unfold heard_while_silent. rewrite V3, V4.
      cbn [filter snd]. destruct sp; cbn [negb]; reflexivity. }
  destruct G as [G1 G2]. split; [exact G1|split; [exact G2|]].
  intros K. unfold get_satisfaction_score. rewrite G1.
  now apply calls_ok.
Qed.

(** The convenience methods: with the agent silent [should_interrupt] is
    always false and [should_ignore] holds exactly for a text whose
    normalized form is empty; with the agent speaking exactly one of the two
    holds. *)
Theorem should_interrupt_or_ignore
    (self : InterruptionHandler) (w : World) (text : string) :
  fst (fst (should_interrupt self w text false)) = false
  /\ fst (fst (should_ignore self w text false)) = is_empty (_normalize_text text)
  /\ fst (fst (should_interrupt self w text true))
     = negb (fst (fst (should_ignore self w text true))).
Proof.
  unfold should_interrupt, should_ignore.
  pose proof (classify_cases self w text false) as C1.
  pose proof (classify_cases self w text true) as C2.
  cbv zeta in C1, C2.
  destruct (classify self w text false) as [[r1 h1] w1].
  destruct (classify self w text true) as [[r2 h2] w2].
  unfold result_of in *. cbn [fst snd] in *.
  repeat split.
  - destruct C1 as [(N & R)|[(N & P & R & _)|[(N & P & F & R)
                   |[(N & P & F & A & R & _)|(N & P & F & A & R)]]]];
      try discriminate; try (injection R as -> _ _); try rewrite R; reflexivity.
  - destruct C1 as [(N & R)|[(N & P & R & _)|[(N & P & F & R)
                   |[(N & P & F & A & R & _)|(N & P & F & A & R)]]]];
      try discriminate; try (injection R as -> _ _); try rewrite R;
      cbn; [now rewrite N|now rewrite (is_empty_false _ N)].
  - destruct C2 as [(N & R)|[(N & P & R & _)|[(N & P & F & R)
                   |[(N & P & F & A & R & _)|(N & P & F & A & R)]]]];
      try discriminate; try (injection R as -> _ _); try rewrite R; reflexivity.
Qed.

(** The result depends on the text through its normalized form only: two
    texts with the same normalized form are classified alike, whatever the
    trackers and the clock; so the case of the letters, the punctuation and
    the spacing of an utterance never change a decision. *)
Theorem classification_by_normalized_text
    (self : InterruptionHandler) (w1 w2 : World) (t1 t2 : string)
    (speaking : bool) :
  _normalize_text t1 = _normalize_text t2 ->
  result_of (classify self w1 t1 speaking)
  = result_of (classify self w2 t2 speaking).
Proof.
  intros E. rewrite !classify_result_pure.
  unfold classification, classify. rewrite E.
  destruct (is_empty (_normalize_text t2)); [reflexivity|].
  cbn [interrupt_commands passive_acknowledgements].
  destruct (_contains_any_phrase _ (interrupt_commands self)) as [hi im].
  destruct (_contains_any_phrase _ (passive_acknowledgements self)) as [ha am].
  destruct speaking; cbn [negb]; [|reflexivity].
  destruct hi; [reflexivity|].
  now destruct (_is_only_acknowledgements _ _).
Qed.

Lemma classification_by_normalized_text_witness :
  result_of (classify InterruptionHandler_init ms_clock "  YEAH... ok!! " true)
  = result_of (classify InterruptionHandler_init ms_clock "yeah ok" true).
Proof.
  apply (classification_by_normalized_text InterruptionHandler_init
           ms_clock ms_clock "  YEAH... ok!! " "yeah ok" true).
  vm_compute. reflexivity.
Defined.

(* ================================================================== *)
(** * Further properties: configuration and the shared handler          *)
(* ================================================================== *)

Lemma not_comma_lower_char (c : ascii) : not_comma (lower_char c) = not_comma c.
Proof. all_ascii c. Qed.

Lemma all_chars_not_comma_lower (s : string) :
  all_chars not_comma s = true -> all_chars not_comma (lower s) = true.
Proof.
  induction s as [|c r IH]; [easy|]. cbn [all_chars lower].
  rewrite not_comma_lower_char. intros H.
  apply andb_true_iff in H as [Hc Hr]. now rewrite Hc, IH.
Qed.

Lemma split_on_pieces (s : string) :
  Forall (fun q => all_chars not_comma q = true) (split_on "," s).
Proof.
  induction s as [|c r IH]; [now repeat constructor|]. cbn [split_on].
  destruct (c =? ",")%char eqn:E; [now constructor|].
  assert (Hc : not_comma c = true) by (unfold not_comma; now rewrite E).
  destruct (split_on "," r) as [|x xs].
  - repeat constructor. cbn. now rewrite Hc.
  - inversion IH; subst. constructor; [|assumption]. cbn. now rewrite Hc.
Qed.

Lemma lower_empty (s : string) : lower s = "" -> s = "".
Proof. now destruct s. Qed.

(** The vocabulary loaded from an environment variable.  An unset variable
    or an empty value gives the default.  Otherwise the entries are the
    pieces between commas, trimmed and lowered, blank pieces left out: each
    entry is non-empty, trimmed, lower-case and free of commas, and none is
    listed twice.  A value made of commas and blanks only gives the empty
    vocabulary, not the default. *)
Theorem get_env_words_entries
    (getenv : Environ) (env_var : string) (default : list string) :
  (getenv env_var = None \/ getenv env_var = Some "" ->
   _get_env_words getenv env_var default = default)
  /\ forall v, getenv env_var = Some v -> v <> "" ->
       let ws := _get_env_words getenv env_var default in
       NoDup ws
       /\ (forall p, In p ws
                     <-> exists piece, In piece (split_on "," v)
                                       /\ strip piece <> ""
                                       /\ p = lower (strip piece))
       /\ (forall p, In p ws ->
                     p <> "" /\ strip p = p /\ lower p = p
                     /\ all_chars not_comma p = true)
       /\ ((forall piece, In piece (split_on "," v) -> strip piece = "") ->
           ws = []).
Proof.
  unfold _get_env_words. split.
  - intros [-> | ->]; reflexivity.
  - intros v -> N. cbv zeta. rewrite (is_empty_false v N).
    assert (M : forall p,
              In p (set_of (map (fun w => lower (strip w))
                              (filter (fun w => negb (is_empty (strip w)))
                                      (split_on "," v))))
              <-> exists piece, In piece (split_on "," v)
                                /\ strip piece <> ""
                                /\ p = lower (strip piece)).
    { intros p. unfold set_of. rewrite nodup_In, in_map_iff. split.
      - intros (x & <- & I). apply filter_In in I as [I E].
        exists x. repeat split; try assumption.
        apply negb_true_iff in E. intros Z. rewrite Z in E. discriminate.
      - intros (x & I & S & ->). exists x. split; [reflexivity|].
        apply filter_In. split; [exact I|].
        apply negb_true_iff. now apply is_empty_false. }
    split; [apply NoDup_nodup|]. split; [exact M|]. split.
    + intros p I. apply M in I as (x & I & S & ->). repeat split.
      * intros Z. apply lower_empty in Z. contradiction.
      * now rewrite <- lower_strip, strip_strip.
      * apply lower_lower.
      * apply all_chars_not_comma_lower. unfold strip.
        apply all_chars_rstrip, all_chars_lstrip.
        pose proof (split_on_pieces v) as F. rewrite Forall_forall in F.
        now apply F.
    + intros B.
      destruct (set_of _) as [|p l] eqn:E; [reflexivity|].
      assert (I : In p (p :: l)) by now left.
      apply (proj1 (M p)) in I as (x & I & S & _).
      now rewrite (B x I) in S.
Qed.

Example get_env_words_example :
  let getenv v := if (v =? "AGENT_INTERRUPT_WORDS")%string
                  then Some " Stop, WAIT ,,hold on , stop" else None in
  _get_env_words getenv "AGENT_INTERRUPT_WORDS" DEFAULT_INTERRUPT_COMMANDS
  = ["wait"; "hold on"; "stop"]
  /\ _get_env_words (fun _ => Some " , ,") "AGENT_PASSIVE_WORDS"
       DEFAULT_PASSIVE_ACKNOWLEDGEMENTS = [].
Proof. split; vm_compute; reflexivity. Qed.

Lemma init_is_new_without_environment :
  InterruptionHandler_new empty_environ = InterruptionHandler_init.
Proof. reflexivity. Qed.

(** The shared handler is built once: the first access builds it from the
    environment of that moment and stores it; later accesses return the
    stored handler whatever the environment has become, with the state that
    the calls made through it have left; a reset makes the next access build
    a fresh one. *)
Theorem shared_handler_lifecycle
    (getenv getenv' : Environ) (instance : option InterruptionHandler)
    (w : World) (text : string) (speaking : bool) :
  let first := get_interruption_handler getenv instance in
  let call := classify_shared getenv instance w text speaking in
  (instance = None -> fst first = InterruptionHandler_new getenv)
  /\ (forall h, instance = Some h -> fst first = h)
  /\ get_interruption_handler getenv' (snd first) = first
  /\ snd (fst call) = Some (handler_of (classify (fst first) w text speaking))
  /\ fst (get_interruption_handler getenv' (snd (fst call)))
     = handler_of (classify (fst first) w text speaking)
  /\ get_interruption_handler getenv' (reset_interruption_handler (snd (fst call)))
     = (InterruptionHandler_new getenv', Some (InterruptionHandler_new getenv')).
Proof.
  cbv zeta. unfold classify_shared, get_interruption_handler,
    reset_interruption_handler.
  destruct instance as [h|]; cbn [fst snd];
    [destruct (classify h w text speaking) as [[r h1] w1]
    |destruct (classify (InterruptionHandler_new getenv) w text speaking)
       as [[r h1] w1]];
    cbn [handler_of fst snd]; repeat split; try congruence.
  all: intros; congruence.
Qed.

(* ================================================================== *)
(** * Further properties: the interactive demo                          *)
(* ================================================================== *)

Lemma run_test_case_spec
    (all_passed : bool) (h : InterruptionHandler) (w : World)
    (case : string * bool * InterruptionDecision * bool) :
  let st' := run_test_case (all_passed, h, w) case in
  fst (fst st')
  = all_passed
    && case_passes (passive_acknowledgements h) (interrupt_commands h) case
  /\ same_vocabularies h (snd (fst st')).
Proof.
  destruct case as [[[text sp] d] sig]. cbv zeta.
  unfold run_test_case, case_passes.
  rewrite <- (classify_result_pure h w text sp).
  destruct (classify_satisfaction h w text sp) as [_ V].
  destruct (classify h w text sp) as [[r h1] w1].
  cbn [result_of handler_of fst snd] in *. split; [|exact V].
  destruct (decision_eqb (decision r) d && _), all_passed; reflexivity.
Qed.

Lemma run_test_cases_spec
    (cases : list (string * bool * InterruptionDecision * bool))
    (all_passed : bool) (h : InterruptionHandler) (w : World) :
  let st' := fold_left run_test_case cases (all_passed, h, w) in
  fst (fst st')
  = all_passed
    && forallb (case_passes (passive_acknowledgements h) (interrupt_commands h))
               cases
  /\ same_vocabularies h (snd (fst st')).
Proof.
  revert all_passed h w. induction cases as [|c cs IH]; intros a h w.
  - cbn. rewrite andb_true_r. now repeat split.
  - cbn [fold_left forallb].
    destruct (run_test_case_spec a h w c) as [E V]. cbv zeta in E, V.
    destruct (run_test_case (a, h, w) c) as [[a1 h1] w1].
    cbn [fst snd] in E, V.
    destruct (IH a1 h1 w1) as [E' V']. cbv zeta in E', V'.
    destruct V as (V1 & V2 & V3 & V4). destruct V' as (V1' & V2' & V3' & V4').
    split; [|unfold same_vocabularies; repeat split; congruence].
    rewrite E', E, V1, V2. now rewrite andb_assoc.
Qed.

Lemma run_automated_tests_spec (handler : InterruptionHandler) (w : World) :
  fst (fst (run_automated_tests handler w))
  = forallb (case_passes (passive_acknowledgements handler)
               (interrupt_commands handler)) test_cases
  /\ same_vocabularies handler (snd (fst (run_automated_tests handler w))).
Proof.
  unfold run_automated_tests.
  destruct (run_test_cases_spec test_cases true handler w) as [E V].
  cbv zeta in E, V. cbn [andb] in E. now split.
Qed.

Lemma default_cases_pass :
  forallb (case_passes DEFAULT_PASSIVE_ACKNOWLEDGEMENTS DEFAULT_INTERRUPT_COMMANDS)
          test_cases = true.
Proof. vm_compute. reflexivity. Qed.

(** The demo's automated suite tests the vocabularies and nothing else: on
    any handler and clock it passes exactly when every case of its table
    passes for the handler's acknowledgement and command vocabularies, it
    leaves the vocabularies as they were, and with the default vocabularies
    it passes, whatever the trackers hold. *)
Theorem automated_tests_pass (handler : InterruptionHandler) (w : World) :
  let run := run_automated_tests handler w in
  fst (fst run)
  = forallb (case_passes (passive_acknowledgements handler)
               (interrupt_commands handler)) test_cases
  /\ same_vocabularies handler (snd (fst run))
  /\ (passive_acknowledgements handler = DEFAULT_PASSIVE_ACKNOWLEDGEMENTS ->
      interrupt_commands handler = DEFAULT_INTERRUPT_COMMANDS ->
      fst (fst run) = true).
Proof.
  cbv zeta. destruct (run_automated_tests_spec handler w) as [E V].
  split; [exact E|split; [exact V|]].
  intros A C. rewrite E, A, C. apply default_cases_pass.
Qed.

Lemma automated_tests_pass_witness :
  fst (fst (run_automated_tests
              (with_engagement InterruptionHandler_init (mkEngagement [3; 4] 8))
              ms_clock))
  = true.
Proof.
  destruct (automated_tests_pass
              (with_engagement InterruptionHandler_init (mkEngagement [3; 4] 8))
              ms_clock) as (_ & _ & H).
  apply H; reflexivity.
Defined.

Lemma silent_never_interrupts
    (self : InterruptionHandler) (w : World) (text : string) (speaking : bool) :
  decision (result_of (classify self w text speaking)) = INTERRUPT ->
  speaking = true.
Proof.
  destruct (classify_cases self w text speaking)
    as [(N & R)|[(N & P & R & _)|[(N & P & F & R)
       |[(N & P & F & A & R & _)|(N & P & F & A & R)]]]];
    cbv zeta in *; intros D; try assumption; rewrite R in D; cbn in D;
    discriminate.
Qed.

Lemma decision_eqb_eq (a b : InterruptionDecision) :
  decision_eqb a b = true <-> a = b.
Proof. destruct a, b; cbn; split; congruence. Qed.

Lemma demo_iteration_output
    (st st' : DemoState) (line : option string) (ctl : LoopControl)
    (result : InterruptionResult) (signal : bool) :
  demo_iteration st line = (ctl, Some (result, signal), st') ->
  signal = decision_eqb (decision result) INTERRUPT
  /\ (signal = true -> demo_agent_speaking st = true)
  /\ exists raw, line = Some raw /\ strip raw <> ""
       /\ result = result_of (classify (demo_handler st) (demo_world st)
                                (strip raw) (demo_agent_speaking st)).
Proof.
  unfold demo_iteration. destruct line as [raw|]; [|discriminate].
  cbv zeta.
  destruct (is_empty (strip raw)) eqn:E; [discriminate|].
  destruct (strip raw =? "1")%string; [discriminate|].
  destruct (strip raw =? "2")%string; [discriminate|].
  destruct (lower (strip raw) =? "q")%string; [discriminate|].
  destruct (lower (strip raw) =? "h")%string; [discriminate|].
  destruct (lower (strip raw) =? "s")%string.
  { destruct (print_state_summary _ _). discriminate. }
  destruct (lower (strip raw) =? "t")%string.
  { destruct (run_automated_tests _ _) as [[? ?] ?]. discriminate. }
  pose proof (silent_never_interrupts (demo_handler st) (demo_world st)
                (strip raw) (demo_agent_speaking st)) as S.
  destruct (classify _ _ _ _) as [[r h] w] eqn:C. cbn [result_of fst] in S.
  intros H. injection H as _ <- <- _.
  split; [reflexivity|]. split.
  - intros D. apply S. now apply decision_eqb_eq.
  - exists raw. split; [reflexivity|]. split.
    + intros Z. now rewrite Z in E.
    + now rewrite C.
Qed.

(** In the demo an interrupt signal is raised only while the agent is set
    to SPEAKING: for every line that the loop hands to the handler, the
    signal is the test "the decision is INTERRUPT", and a raised signal
    means that the agent state was SPEAKING at that moment.  Started by
    [main] without configuration in the environment, the automated tests
    have passed before the loop begins. *)
Theorem demo_signal_only_while_speaking
    (st : DemoState) (w : World) (lines : list string) :
  let sound := fun o : bool * InterruptionResult * bool =>
                 snd o = decision_eqb (decision (snd (fst o))) INTERRUPT
                 /\ (snd o = true -> fst (fst o) = true) in
  Forall sound (fst (demo_loop st lines))
  /\ Forall sound (snd (fst (demo_main empty_environ w lines)))
  /\ fst (fst (demo_main empty_environ w lines)) = true.
Proof.
  cbv zeta.
  assert (L : forall lines st,
            Forall (fun o : bool * InterruptionResult * bool =>
                      snd o = decision_eqb (decision (snd (fst o))) INTERRUPT
                      /\ (snd o = true -> fst (fst o) = true))
                   (fst (demo_loop st lines))).
  { clear. induction lines as [|line rest IH]; intros st; [constructor|].
    cbn [demo_loop].
    destruct (demo_iteration st (Some line)) as [[ctl out] st'] eqn:E.
    destruct ctl; [|constructor].
    destruct out as [[r sig]|]; [|apply IH].
    apply demo_iteration_output in E as (E1 & E2 & _).
    specialize (IH st'). destruct (demo_loop st' rest) as [out st''].
    cbn [fst snd] in *. constructor; [now split|exact IH]. }
  split; [apply L|].
  unfold demo_main.
  destruct (run_automated_tests_spec (InterruptionHandler_new empty_environ) w)
    as (T & _).
  change (forallb _ test_cases) with
    (forallb (case_passes DEFAULT_PASSIVE_ACKNOWLEDGEMENTS
                DEFAULT_INTERRUPT_COMMANDS) test_cases) in T.
  rewrite default_cases_pass in T.
  destruct (run_automated_tests _ w) as [[passed h] w1]. cbn [fst] in T.
  specialize (L lines (mkDemo h true w1)).
  destruct (demo_loop _ lines) as [out st']. cbn [fst snd] in *.
  now split.
Qed.

Example demo_example :
  let '(passed, out, st) :=
    demo_main empty_environ ms_clock
      ["yeah"; " 2 "; "stop"; "s"; "1"; "Stop!"; "Q"; "never reached"] in
  passed = true
  /\ map (fun o => (fst (fst o), decision (snd (fst o)), snd o)) out
     = [(true, IGNORE, false); (false, PROCESS, false); (true, INTERRUPT, true)].
Proof. vm_compute. split; reflexivity. Qed.

(* ================================================================== *)
(** * Further properties: the observational reads                       *)
(* ================================================================== *)

(** [log_state] only prunes: it reads the clock twice, leaves the
    vocabularies, the satisfaction state and the window as they were, and
    keeps of the timestamps those that pass both window checks, a single
    check with the later reading when the clock has not run backwards.  No
    later classification is changed by it. *)
Theorem log_state_only_prunes (self : InterruptionHandler) (w : World) :
  let e := engagement_state self in
  let t := fun k : nat => clock w (reads w + k) in
  let h' := fst (log_state self w) in
  same_vocabularies self h'
  /\ satisfaction_state h' = satisfaction_state self
  /\ engagement_state h'
     = mkEngagement
         (prune (t 1%nat) (window_seconds e)
            (prune (t 0%nat) (window_seconds e) (acknowledgement_timestamps e)))
         (window_seconds e)
  /\ ((t 0%nat <= t 1%nat)%Q ->
      acknowledgement_timestamps (engagement_state h')
      = prune (t 1%nat) (window_seconds e) (acknowledgement_timestamps e))
  /\ snd (log_state self w) = mkWorld (clock w) (reads w + 2)
  /\ forall w' text speaking,
       result_of (classify h' w' text speaking)
       = result_of (classify self w' text speaking).
Proof.
  cbv zeta. unfold log_state, Engagement.get_level, Engagement.get_count,
    Engagement._cleanup_old, time_time.
  cbn [fst snd with_engagement engagement_state satisfaction_state
       acknowledgement_timestamps window_seconds clock reads].
  rewrite !Nat.add_succ_r, Nat.add_0_r.
  fold (prune (clock w (reads w)) (window_seconds (engagement_state self))
          (acknowledgement_timestamps (engagement_state self))).
  set (p0 := prune (clock w (reads w)) _ _).
  fold (prune (clock w (S (reads w))) (window_seconds (engagement_state self)) p0).
  split; [now repeat split|]. split; [reflexivity|]. split; [reflexivity|].
  split; [intros L; subst p0; now apply prune_prune|]. split; [reflexivity|].
  intros w' text speaking. now rewrite !classify_result_pure.
Qed.
